(** * Weapon detection service: a shallow embedding of the request pipeline

    The development follows the layout of the Python package:
    - [app/core/exceptions.py]   the exception hierarchy and its HTTP codes,
    - [app/models/schemas.py]    the response records,
    - [app/config.py]            the settings the service reads,
    - [app/models/yolo_model.py] the singleton model wrapper,
    - [app/services/detection_service.py] the result mapper, the image
      operations and the streaming generator.

    Python integers are [Z]; Python floats are modelled by rationals [Q]
    (no claim below depends on rounding or on special float values);
    [bytes] are lists of bytes; a Python [dict] is a [gmap].  Third-party
    code (PIL, OpenCV, the detection engine, the file system) is collected
    in one record of functions, [External], so that every definition stays
    executable once an instance is supplied. *)

From Stdlib Require Import ZArith QArith Qminmax Lqa Sorted.
From stdpp Require Import base tactics option list gmap strings pretty.

Local Open Scope Z_scope.

(** ** Exceptions ([app/core/exceptions.py]) *)

(** The subclasses of [WeaponDetectionException]. *)
Inductive app_exn : Type :=
  | ModelLoadException
  | InvalidImageException
  | ImageTooLargeException
  | DetectionException
  | VideoStreamException
  | CameraNotFoundException.

(** Every subclass passes a fixed [status_code] to the base constructor. *)
Definition status_code (e : app_exn) : Z :=
  match e with
  | ModelLoadException => 500
  | InvalidImageException => 400
  | ImageTooLargeException => 413
  | DetectionException => 500
  | VideoStreamException => 500
  | CameraNotFoundException => 404
  end.

(** Everything an [except Exception] clause can catch.  [ForeignError]
    stands for an exception raised inside third-party code; such code
    cannot raise one of the application's own classes. *)
Inductive exn : Type :=
  | App (e : app_exn)
  | KeyError
  | IndexError
  | ZeroDivisionError
  | ValidationError
  | AttributeError
  | ForeignError (msg : string).

#[global] Instance app_exn_eq_dec : EqDecision app_exn.
Proof. solve_decision. Defined.

#[global] Instance exn_eq_dec : EqDecision exn.
Proof. solve_decision. Defined.

(** ** Results and a state-and-exception monad *)

Inductive res (A : Type) : Type :=
  | Ok (a : A)
  | Raise (e : exn).
Arguments Ok {A} a.
Arguments Raise {A} e.

Definition is_ok {A} (r : res A) : bool :=
  match r with Ok _ => true | Raise _ => false end.

(** Third-party calls return a message on failure. *)
Definition ext (A : Type) : Type := string + A.

Definition lift_ext {A} (r : ext A) : res A :=
  match r with inl msg => Raise (ForeignError msg) | inr a => Ok a end.

(** A computation over a mutable store [S] that may raise. *)
Definition M (S A : Type) : Type := S -> res A * S.

Definition ret {S A} (a : A) : M S A := fun s => (Ok a, s).

Definition raise {S A} (e : exn) : M S A := fun s => (Raise e, s).

Definition bind {S A B} (m : M S A) (k : A -> M S B) : M S B :=
  fun s => match m s with
           | (Ok a, s') => k a s'
           | (Raise e, s') => (Raise e, s')
           end.

Definition lift {S A} (r : res A) : M S A := fun s => (r, s).

Definition modify {S} (f : S -> S) : M S unit := fun s => (Ok tt, f s).

Definition gets {S A} (f : S -> A) : M S A := fun s => (Ok (f s), s).

(** [try: m except Exception as e: h e] *)
Definition try_except {S A} (m : M S A) (h : exn -> M S A) : M S A :=
  fun s => match m s with
           | (Ok a, s') => (Ok a, s')
           | (Raise e, s') => h e s'
           end.

(** [try: m finally: f] where the [finally] block itself does not raise. *)
Definition try_finally {S A} (m : M S A) (f : S -> S) : M S A :=
  fun s => let '(r, s') := m s in (r, f s').

Declare Scope monad_scope.
Delimit Scope monad_scope with monad.
Notation "x <- c1 ;; c2" := (bind c1 (fun x => c2))
  (at level 100, c1 at next level, right associativity) : monad_scope.
Notation "c1 ;; c2" := (bind c1 (fun _ => c2))
  (at level 100, right associativity) : monad_scope.
Local Open Scope monad_scope.

(** What the operations leave behind: log records and the calls made to
    the outside world, oldest first. *)
Inductive event : Type :=
  | LogInfo (msg : string)
  | LogWarning (msg : string)
  | LogError (msg : string)
  | CallDecode
  | CallPredict
  | CallModelLoad
  | CallEncode.

#[global] Instance event_eq_dec : EqDecision event.
Proof. solve_decision. Defined.

(** ** Schemas ([app/models/schemas.py]) *)

Record BoundingBox : Type := mkBoundingBox {
  x1 : Q; y1 : Q; x2 : Q; y2 : Q
}.

Record Detection : Type := mkDetection {
  class_name : string;
  confidence : Q;
  bounding_box : BoundingBox;
  class_id : Z
}.

(** The constructor [Detection(...)]: the field [confidence] is declared
    with [ge=0.0, le=1.0], so a value outside the interval is refused. *)
Definition new_Detection (cls_name : string) (conf : Q) (bb : BoundingBox)
    (cls_id : Z) : res Detection :=
  if Qle_bool 0 conf && Qle_bool conf 1
  then Ok (mkDetection cls_name conf bb cls_id)
  else Raise ValidationError.

Module ImageDetectionResponse.
Record t : Type := new {
  detections : list Detection;
  detection_count : Z;
  inference_time_ms : Q;
  image_size : Z * Z;
  has_weapons : bool
}.
End ImageDetectionResponse.

Module VideoFrameDetection.
Record t : Type := new {
  frame_number : Z;
  detections : list Detection;
  detection_count : Z;
  inference_time_ms : Q;
  has_weapons : bool
}.
End VideoFrameDetection.

(** Python's [len]. *)
Definition len {A} (l : list A) : Z := Z.of_nat (length l).

(** Python's [round(x, 2)] on the rational model: to the nearest hundredth,
    ties to the even neighbour. *)
Definition round2 (x : Q) : Q :=
  let y := (x * 100)%Q in
  let n := Qnum y in
  let d := Zpos (Qden y) in
  let fl := n / d in
  let r := n mod d in
  let z := if 2 * r <? d then fl
           else if d <? 2 * r then fl + 1
           else if Z.even fl then fl else fl + 1 in
  Qmake z 100.

(** Python's [int(x)] on a float: truncation towards zero. *)
Definition int_of_float (x : Q) : Z := Z.quot (Qnum x) (Zpos (Qden x)).

(** ** Settings ([app/config.py]) : the fields the service reads *)

Record Settings : Type := mkSettings {
  model_path : string;
  confidence_threshold : Q;
  iou_threshold : Q;
  device : string;
  half_precision : bool;
  max_image_size : Z
}.

(** The defaults of the class. *)
Definition default_settings : Settings :=
  {| model_path := "best.pt";
     confidence_threshold := 4 # 10;
     iou_threshold := 45 # 100;
     device := "cuda";
     half_precision := true;
     max_image_size := 10 * 1024 * 1024 |}.

(** ** What the detection engine returns *)

(** A pixel array: its [shape] and its contents by flat index. *)
Record ndarray : Type := mkArray {
  shape : list Z;
  pixels : Z -> Z
}.

(** [np.zeros(shape, dtype=np.uint8)] *)
Definition zeros (sh : list Z) : ndarray := mkArray sh (fun _ => 0).

(** One row of [result.boxes]: the entries [xyxy[i]], [conf[i]], [cls[i]]
    of the three tensors, which the engine keeps at the same length. *)
Record BoxRow : Type := mkRow {
  xyxy : Q * Q * Q * Q;
  conf : Q;
  cls : Q
}.

(** One element of the list returned by [predict].  An attribute that the
    mapper tests with [hasattr] is an [option]; [boxes] may be [None];
    [names] is the engine's dictionary from class ids to class names;
    [plot] is the outcome of [result.plot()]. *)
Record RawResult : Type := mkRaw {
  orig_shape : option (Z * Z);
  boxes : option (list BoxRow);
  names : option (gmap Z string);
  plot : ext ndarray
}.

(** The loaded engine object: the weights it was built from and the device
    it was moved to. *)
Record YOLO : Type := mkYOLO {
  weights : string;
  on_device : string
}.

Inductive color_code : Type := COLOR_RGBA2RGB | COLOR_GRAY2RGB | COLOR_RGB2BGR.

(** Third-party code and the platform. *)
Record External : Type := mkExternal {
  (** [np.array(Image.open(io.BytesIO(data)))] *)
  image_open : list Byte.byte -> ext ndarray;
  (** [cv2.cvtColor] *)
  cvtColor : ndarray -> color_code -> ext ndarray;
  (** [cv2.imencode('.jpg', img)] followed by [tobytes()] *)
  imencode : ndarray -> ext (list Byte.byte);
  (** [Path(p).exists()] *)
  path_exists : string -> bool;
  (** the constructor [YOLO(path)] *)
  yolo_new : string -> ext YOLO;
  (** [torch.cuda.is_available()] *)
  cuda_is_available : bool;
  (** [torch.cuda.get_device_name(0)] and [get_device_properties(0)] *)
  cuda_device_info : ext unit;
  (** [model.to(device)] *)
  yolo_to : YOLO -> string -> ext YOLO;
  (** the engine's own [predict], with the confidence threshold *)
  yolo_predict : YOLO -> ndarray -> Q -> ext (list RawResult);
  (** elapsed wall-clock time of an inference on the given source, in ms *)
  inference_time : ndarray -> Q
}.

(** ** The model wrapper ([app/models/yolo_model.py]) *)

(** The attributes of the one [YOLOModelWrapper] instance. *)
Record YOLOModelWrapper : Type := mkWrapper {
  _initialized : bool;
  model : option YOLO;
  _settings : option Settings
}.

(** [__init__] on the fresh instance. *)
Definition new_wrapper : YOLOModelWrapper :=
  {| _initialized := false; model := None; _settings := None |}.

(** The property [is_loaded]. *)
Definition is_loaded (self : YOLOModelWrapper) : bool :=
  _initialized self && bool_decide (model self <> None).

(** The store [load_model] works on: the wrapper, the settings object it
    was handed (it may write to it) and the log. *)
Record LoadStore : Type := mkLoadStore {
  ld_self : YOLOModelWrapper;
  ld_settings : Settings;
  ld_log : list event
}.

Definition emit_load (e : event) : M LoadStore unit :=
  modify (fun st => mkLoadStore (ld_self st) (ld_settings st) (ld_log st ++ [e])).

Definition set_self (f : YOLOModelWrapper -> YOLOModelWrapper) : M LoadStore unit :=
  modify (fun st => mkLoadStore (f (ld_self st)) (ld_settings st) (ld_log st)).

Definition set_settings (f : Settings -> Settings) : M LoadStore unit :=
  modify (fun st => mkLoadStore (ld_self st) (f (ld_settings st)) (ld_log st)).

Definition with_model (m : YOLO) (w : YOLOModelWrapper) : YOLOModelWrapper :=
  {| _initialized := _initialized w; model := Some m; _settings := _settings w |}.

Definition cpu_fallback (s : Settings) : Settings :=
  {| model_path := model_path s;
     confidence_threshold := confidence_threshold s;
     iou_threshold := iou_threshold s;
     device := "cpu";
     half_precision := false;
     max_image_size := max_image_size s |}.

(** The body of the [try] block of [load_model]. *)
Definition load_model_body (E : External) : M LoadStore unit :=
  emit_load (LogInfo "Loading YOLO model") ;;
  path <- gets (fun st => model_path (ld_settings st)) ;;
  (if path_exists E path then ret tt else raise (App ModelLoadException)) ;;
  emit_load CallModelLoad ;;
  m <- lift (lift_ext (yolo_new E path)) ;;
  set_self (with_model m) ;;
  dev <- gets (fun st => device (ld_settings st)) ;;
  (if String.eqb dev "cuda" then
     if cuda_is_available E then
       lift (lift_ext (cuda_device_info E)) ;;
       emit_load (LogInfo "GPU detected")
     else
       emit_load (LogWarning "CUDA requested but not available, falling back to CPU") ;;
       set_settings cpu_fallback
   else ret tt) ;;
  dev <- gets (fun st => device (ld_settings st)) ;;
  m <- lift (lift_ext (yolo_to E m dev)) ;;
  set_self (with_model m) ;;
  half <- gets (fun st => half_precision (ld_settings st)) ;;
  (if half && String.eqb dev "cuda"
   then emit_load (LogInfo "Enabling FP16 (half precision) mode for faster inference")
   else ret tt) ;;
  settings <- gets ld_settings ;;
  set_self (fun w => {| _initialized := true; model := model w;
                        _settings := Some settings |}) ;;
  emit_load (LogInfo "Warming up model...") ;;
  emit_load CallPredict ;;
  lift (lift_ext (yolo_predict E m (zeros [640; 640; 3])
                    (confidence_threshold settings))) ;;
  emit_load (LogInfo "Model loaded and warmed up successfully").

(** [YOLOModelWrapper.load_model].  The lock is not modelled: calls are
    taken one after the other, so the test under the lock repeats the
    first one. *)
Definition load_model (E : External) : M LoadStore unit :=
  fun st =>
    if is_loaded (ld_self st) then
      emit_load (LogInfo "Model already loaded, skipping initialization") st
    else if is_loaded (ld_self st) then
      ret tt st
    else
      try_except (load_model_body E)
        (fun e => emit_load (LogError "Failed to load model") ;;
                  raise (App ModelLoadException)) st.

(** [YOLOModelWrapper.predict], with the arguments the service passes:
    the source and the confidence threshold. *)
Definition predict (E : External) (self : YOLOModelWrapper)
    (source : ndarray) (conf : option Q) : res (list RawResult) :=
  if negb (_initialized self) then Raise (App ModelLoadException) else
  match model self with
  | None => Raise (App ModelLoadException)
  | Some m =>
      match _settings self with
      | None => Raise AttributeError
      | Some st =>
          let conf := match conf with
                      | Some c => c
                      | None => confidence_threshold st
                      end in
          lift_ext (yolo_predict E m source conf)
      end
  end.

(** ** The detection service ([app/services/detection_service.py]) *)

(** The service object: its settings and the wrapper [get_model()] gave it. *)
Record DetectionService : Type := mkService {
  settings : Settings;
  svc_model : YOLOModelWrapper
}.

(** *** The result mapper *)

(** [result.names[cls_id] if hasattr(result, 'names') else f"class_{cls_id}"]:
    the test is on the result object; with a table, the lookup is a plain
    subscript, which raises on a missing key. *)
Definition class_name_of (result : RawResult) (cls_id : Z) : res string :=
  match names result with
  | Some table =>
      match table !! cls_id with
      | Some name => Ok name
      | None => Raise KeyError
      end
  | None => Ok ("class_" +:+ pretty cls_id)
  end.

(** The body of the loop over [range(len(boxes))], for one row. *)
Definition process_row (result : RawResult) (row : BoxRow) : res Detection :=
  let '(a, b, c, d) := xyxy row in
  let cls_id := int_of_float (cls row) in
  match class_name_of result cls_id with
  | Raise e => Raise e
  | Ok cls_name =>
      new_Detection cls_name (conf row) (mkBoundingBox a b c d) cls_id
  end.

(** The loop: [detections.append] row after row; an exception leaves the
    loop and the function. *)
Fixpoint process_rows (result : RawResult) (rows : list BoxRow)
    (detections : list Detection) : res (list Detection) :=
  match rows with
  | [] => Ok detections
  | row :: rest =>
      match process_row result row with
      | Raise e => Raise e
      | Ok detection => process_rows result rest (detections ++ [detection])
      end
  end.

(** [DetectionService._process_results].  The source also takes the
    inference time and never reads it. *)
Definition _process_results (results : list RawResult)
    : res (list Detection * (Z * Z)) :=
  match results with
  | [] => Ok ([], (0, 0))
  | result :: _ =>
      let image_size := match orig_shape result with
                        | Some (h, w) => (w, h)
                        | None => (0, 0)
                        end in
      match boxes result with
      | None => Ok ([], image_size)
      | Some rows =>
          if 0 <? len rows then
            match process_rows result rows [] with
            | Raise e => Raise e
            | Ok detections => Ok (detections, image_size)
            end
          else Ok ([], image_size)
      end
  end.

(** *** Image operations *)

Definition log_event (e : event) : M (list event) unit :=
  modify (fun tr => tr ++ [e]).

(** The inner [try] block shared by the two image operations. *)
Definition load_image (E : External) (image_data : list Byte.byte)
    : M (list event) ndarray :=
  log_event CallDecode ;;
  image_np <- lift (lift_ext (image_open E image_data)) ;;
  match last (shape image_np) with
  | None => raise IndexError
  | Some channels =>
      if channels =? 4 then
        lift (lift_ext (cvtColor E image_np COLOR_RGBA2RGB))
      else if len (shape image_np) =? 2 then
        lift (lift_ext (cvtColor E image_np COLOR_GRAY2RGB))
      else ret image_np
  end.

(** The size test and the guarded decoding that open both operations. *)
Definition checked_image (E : External) (self : DetectionService)
    (image_data : list Byte.byte) : M (list event) ndarray :=
  (if max_image_size (settings self) <? len image_data
   then raise (App ImageTooLargeException)
   else ret tt) ;;
  try_except (load_image E image_data)
    (fun e => log_event (LogError "Failed to load image") ;;
              raise (App InvalidImageException)).

(** [except (InvalidImageException, ImageTooLargeException): raise]
    followed by [except Exception], which wraps in [DetectionException]. *)
Definition image_handlers {A} (msg : string) (e : exn) : M (list event) A :=
  match e with
  | App InvalidImageException => raise e
  | App ImageTooLargeException => raise e
  | _ => log_event (LogError msg) ;; raise (App DetectionException)
  end.

(** [confidence_threshold if confidence_threshold is not None else
    self.settings.confidence_threshold] *)
Definition threshold (self : DetectionService) (custom : option Q) : Q :=
  match custom with
  | Some c => c
  | None => confidence_threshold (settings self)
  end.

(** [DetectionService.detect_from_image_file].  [save_result] only asks the
    engine to write its annotated picture to disk. *)
Definition detect_from_image_file (E : External) (self : DetectionService)
    (image_data : list Byte.byte) (confidence_threshold : option Q)
    (save_result : bool) : M (list event) ImageDetectionResponse.t :=
  try_except
    (image_np <- checked_image E self image_data ;;
     let conf := threshold self confidence_threshold in
     log_event CallPredict ;;
     results <- lift (predict E (svc_model self) image_np (Some conf)) ;;
     let inference_time := inference_time E image_np in
     r <- lift (_process_results results) ;;
     let '(detections, image_size) := r in
     let response :=
       ImageDetectionResponse.new detections (len detections)
         (round2 inference_time) image_size (0 <? len detections) in
     log_event (LogInfo "Image detection completed") ;;
     ret response)
    (image_handlers "Detection failed").

(** [DetectionService.detect_and_annotate_image] *)
Definition detect_and_annotate_image (E : External) (self : DetectionService)
    (image_data : list Byte.byte) (confidence_threshold : option Q)
    : M (list event) (list Byte.byte * ImageDetectionResponse.t) :=
  try_except
    (image_np <- checked_image E self image_data ;;
     let conf := threshold self confidence_threshold in
     log_event CallPredict ;;
     results <- lift (predict E (svc_model self) image_np (Some conf)) ;;
     let inference_time := inference_time E image_np in
     r <- lift (_process_results results) ;;
     let '(detections, image_size) := r in
     annotated_image <- match results with
                        | result :: _ => lift (lift_ext (plot result))
                        | [] => ret image_np
                        end ;;
     bgr <- lift (lift_ext (cvtColor E annotated_image COLOR_RGB2BGR)) ;;
     log_event CallEncode ;;
     annotated_bytes <- lift (lift_ext (imencode E bgr)) ;;
     let response :=
       ImageDetectionResponse.new detections (len detections)
         (round2 inference_time) image_size (0 <? len detections) in
     log_event (LogInfo "Image detection with annotation completed") ;;
     ret (annotated_bytes, response))
    (image_handlers "Detection with annotation failed").

(** *** The camera *)

(** What [cv2.VideoCapture(camera_id)] does: it raises, or it returns a
    capture object that is open or not. *)
Inductive open_outcome : Type :=
  | Opened
  | NotOpened
  | OpenRaises (msg : string).

(** What one [cap.read()] does: a frame, no frame ([ret] false or [frame]
    [None]), or an exception from the driver. *)
Inductive read_outcome : Type :=
  | ReadFrame (frame : ndarray)
  | ReadNone
  | ReadRaises (msg : string).

(** The world a camera operation runs in: how each camera id answers, what
    the device will deliver (nothing more once the script is exhausted),
    how many capture objects were built, how many times [release] ran, and
    the log. *)
Record World : Type := mkWorld {
  cam_open : Z -> open_outcome;
  cam_reads : list read_outcome;
  cam_captures : nat;
  cam_released : nat;
  cam_log : list event
}.

Definition set_reads (reads : list read_outcome) (wd : World) : World :=
  mkWorld (cam_open wd) reads (cam_captures wd) (cam_released wd) (cam_log wd).

Definition log_world (e : event) (wd : World) : World :=
  mkWorld (cam_open wd) (cam_reads wd) (cam_captures wd) (cam_released wd)
          (cam_log wd ++ [e]).

(** [cap = cv2.VideoCapture(camera_id)] then [cap.isOpened()] *)
Definition VideoCapture (camera_id : Z) : M World bool :=
  fun wd =>
    match cam_open wd camera_id with
    | OpenRaises msg => (Raise (ForeignError msg), wd)
    | Opened =>
        (Ok true, mkWorld (cam_open wd) (cam_reads wd) (S (cam_captures wd))
                          (cam_released wd) (cam_log wd))
    | NotOpened =>
        (Ok false, mkWorld (cam_open wd) (cam_reads wd) (S (cam_captures wd))
                           (cam_released wd) (cam_log wd))
    end.

(** [cap.read()]: [None] stands for [not ret or frame is None]. *)
Definition cap_read : M World (option ndarray) :=
  fun wd =>
    match cam_reads wd with
    | [] => (Ok None, wd)
    | ReadFrame frame :: rest => (Ok (Some frame), set_reads rest wd)
    | ReadNone :: rest => (Ok None, set_reads rest wd)
    | ReadRaises msg :: rest => (Raise (ForeignError msg), set_reads rest wd)
    end.

(** [cap.release()] *)
Definition cap_release (wd : World) : World :=
  mkWorld (cam_open wd) (cam_reads wd) (cam_captures wd) (S (cam_released wd))
          (cam_log wd).

(** Inference on one frame and the construction of its result, shared by
    the single-frame operation and the stream. *)
Definition detect_frame (E : External) (self : DetectionService)
    (conf : Q) (frame_number : Z) (frame : ndarray)
    : M World (ndarray * VideoFrameDetection.t) :=
  modify (log_world CallPredict) ;;
  results <- lift (predict E (svc_model self) frame (Some conf)) ;;
  let inference_time := inference_time E frame in
  r <- lift (_process_results results) ;;
  let '(detections, _) := r in
  annotated_frame <- match results with
                     | result :: _ => lift (lift_ext (plot result))
                     | [] => ret frame
                     end ;;
  let detection_result :=
    VideoFrameDetection.new frame_number detections (len detections)
      (round2 inference_time) (0 <? len detections) in
  ret (annotated_frame, detection_result).

(** [DetectionService.detect_from_camera] *)
Definition detect_from_camera (E : External) (self : DetectionService)
    (camera_id : Z) (confidence_threshold : option Q)
    : M World (ndarray * VideoFrameDetection.t) :=
  try_except
    (opened <- VideoCapture camera_id ;;
     (if opened then ret tt else raise (App CameraNotFoundException)) ;;
     frame <- cap_read ;;
     modify cap_release ;;
     match frame with
     | None => raise (App VideoStreamException)
     | Some frame =>
         detect_frame E self (threshold self confidence_threshold) 0 frame
     end)
    (fun e =>
       match e with
       | App CameraNotFoundException => raise e
       | App VideoStreamException => raise e
       | _ => modify (log_world (LogError "Camera detection failed")) ;;
              raise (App DetectionException)
       end).

(** *** The streaming generator *)

(** What one [yield] hands to the consumer. *)
Definition stream_item : Type := (list Byte.byte * VideoFrameDetection.t)%type.

(** The inner [try] block of the loop, up to the [yield]. *)
Definition process_frame (E : External) (self : DetectionService)
    (conf : Q) (frame_count : Z) (frame : ndarray) : M World stream_item :=
  r <- detect_frame E self conf frame_count frame ;;
  let '(annotated_frame, detection_result) := r in
  modify (log_world CallEncode) ;;
  frame_bytes <- lift (lift_ext (imencode E annotated_frame)) ;;
  ret (frame_bytes, detection_result).

(** How a run of the [while True] loop ends: suspended at the [yield] with
    the current counter, or left through [break]. *)
Inductive loop_exit : Type :=
  | LoopYield (item : stream_item) (frame_count : Z)
  | LoopBreak.

(** The [while True] loop entered with counter [frame_count], run until it
    yields, breaks or lets an exception escape.  [reads] is what the device
    still has to deliver; each iteration takes one read. *)
Fixpoint stream_loop (E : External) (self : DetectionService) (conf : Q)
    (frame_skip : Z) (reads : list read_outcome) (frame_count : Z)
    (wd : World) : res loop_exit * World :=
  match reads with
  | [] =>
      (Ok LoopBreak,
       log_world (LogWarning "Failed to read frame, ending stream") wd)
  | r :: rest =>
      let wd := set_reads rest wd in
      match r with
      | ReadRaises msg => (Raise (ForeignError msg), wd)
      | ReadNone =>
          (Ok LoopBreak,
           log_world (LogWarning "Failed to read frame, ending stream") wd)
      | ReadFrame frame =>
          if frame_skip + 1 =? 0 then (Raise ZeroDivisionError, wd)
          else if negb (frame_count mod (frame_skip + 1) =? 0) then
            stream_loop E self conf frame_skip rest (frame_count + 1) wd
          else
            match process_frame E self conf frame_count frame wd with
            | (Ok item, wd') => (Ok (LoopYield item frame_count), wd')
            | (Raise e, wd') =>
                stream_loop E self conf frame_skip rest frame_count
                  (log_world (LogError "Error processing frame") wd')
            end
      end
  end.

(** The generator object: where it stands and the world it acts on. *)
Inductive gen_state : Type :=
  | GenCreated
  | GenSuspended (frame_count : Z)
  | GenClosed.

Record Generator : Type := mkGen {
  gen_at : gen_state;
  gen_world : World
}.

(** What [next(gen)] gives the consumer. *)
Inductive next_result : Type :=
  | Yielded (item : stream_item)
  | StopIteration
  | Raised (e : exn).

(** The [finally] block, with [cap] bound. *)
Definition release_camera (wd : World) : World :=
  log_world (LogInfo "Camera released") (cap_release wd).

(** The two [except] clauses of the outer [try]. *)
Definition stream_handlers (e : exn) (wd : World) : exn * World :=
  match e with
  | App CameraNotFoundException => (e, wd)
  | _ => (App VideoStreamException, log_world (LogError "Video stream error") wd)
  end.

(** Where the generator goes after a run of the loop. *)
Definition after_loop (out : res loop_exit * World) : Generator * next_result :=
  match out with
  | (Ok (LoopYield item frame_count), wd) =>
      (mkGen (GenSuspended frame_count) wd, Yielded item)
  | (Ok LoopBreak, wd) =>
      (mkGen GenClosed (release_camera wd), StopIteration)
  | (Raise e, wd) =>
      let '(e', wd') := stream_handlers e wd in
      (mkGen GenClosed (release_camera wd'), Raised e')
  end.

Section Stream.

Variable E : External.
Variable self : DetectionService.
Variable camera_id : Z.
Variable confidence_threshold : option Q.
Variable frame_skip : Z.

(** [DetectionService.generate_video_stream]: calling it only builds the
    generator; nothing runs before the first [next]. *)
Definition generate_video_stream (wd : World) : Generator :=
  mkGen GenCreated wd.

Definition run_loop (frame_count : Z) (wd : World) : Generator * next_result :=
  after_loop (stream_loop E self (threshold self confidence_threshold)
                frame_skip (cam_reads wd) frame_count wd).

(** [next(gen)].  From [GenCreated] the body starts at its first line;
    from a [yield] it resumes with [frame_count += 1] and the loop. *)
Definition gen_next (g : Generator) : Generator * next_result :=
  match gen_at g with
  | GenClosed => (g, StopIteration)
  | GenSuspended frame_count => run_loop (frame_count + 1) (gen_world g)
  | GenCreated =>
      match VideoCapture camera_id (gen_world g) with
      | (Raise e, wd) =>
          (* [cap] is still [None]: the [finally] block releases nothing *)
          let '(e', wd') := stream_handlers e wd in
          (mkGen GenClosed wd', Raised e')
      | (Ok false, wd) =>
          let '(e', wd') := stream_handlers (App CameraNotFoundException) wd in
          (mkGen GenClosed (release_camera wd'), Raised e')
      | (Ok true, wd) =>
          run_loop 0 (log_world (LogInfo "Started video stream") wd)
      end
  end.

(** [gen.close()]: [GeneratorExit] is raised at the [yield]; it is not an
    [Exception], so only the [finally] block runs.  A generator that was
    never started has no frame to unwind. *)
Definition gen_close (g : Generator) : Generator :=
  match gen_at g with
  | GenCreated => mkGen GenClosed (gen_world g)
  | GenSuspended _ => mkGen GenClosed (release_camera (gen_world g))
  | GenClosed => g
  end.

(** The consumer: it pulls, or it goes away. *)
Inductive consumer_op : Type := DoNext | DoClose.

Definition consume (g : Generator) (op : consumer_op) : Generator :=
  match op with
  | DoNext => fst (gen_next g)
  | DoClose => gen_close g
  end.

Definition consume_all (ops : list consumer_op) (g : Generator) : Generator :=
  foldl consume g ops.

(** A [for] loop over the generator that makes at most [n] pulls: the
    items received, how the iteration ended if it did, and the generator
    left behind. *)
Fixpoint pull (n : nat) (g : Generator)
    : list stream_item * option next_result * Generator :=
  match n with
  | O => ([], None, g)
  | S n' =>
      match gen_next g with
      | (g', Yielded item) =>
          let '(items, fin, g'') := pull n' g' in (item :: items, fin, g'')
      | (g', r) => ([], Some r, g')
      end
  end.

End Stream.

Definition frame_numbers (items : list stream_item) : list Z :=
  map (fun item => VideoFrameDetection.frame_number (snd item)) items.

(** ** A small concrete platform, to run the definitions *)

Module Demo.

(** A frame whose first pixel is [v]. *)
Definition frame (v : Z) : ndarray := mkArray [2; 2; 3] (fun _ => v).

(** A frame on which the engine fails. *)
Definition broken_frame : ndarray := mkArray [0] (fun _ => 0).

Definition gun_row : BoxRow :=
  mkRow (10 # 1, 20 # 1, 30 # 1, 40 # 1) (9 # 10) (0 # 1).

Definition knife_row : BoxRow :=
  mkRow (1 # 1, 2 # 1, 3 # 1, 4 # 1) (1 # 2) (5 # 1).

Definition gun_names : gmap Z string := {[ 0 := "gun" ]}.

(** The engine: it fails on [broken_frame], sees nothing on a frame whose
    first pixel is 0, and one gun otherwise. *)
Definition engine (m : YOLO) (source : ndarray) (conf : Q)
    : ext (list RawResult) :=
  if bool_decide (shape source = [0]) then inl "inference failed"
  else
    let rows := if pixels source 0 =? 0 then [] else [gun_row] in
    inr [mkRaw (Some (2, 2)) (Some rows) (Some gun_names) (inr source)].

Definition jpeg (img : ndarray) : list Byte.byte :=
  match Byte.of_N (Z.to_N (pixels img 0)) with
  | Some b => [b]
  | None => []
  end.

Definition env : External :=
  {| image_open := fun data =>
       match data with
       | [] => inl "cannot identify image file"
       | b :: _ => inr (frame (Z.of_N (Byte.to_N b)))
       end;
     cvtColor := fun img _ => inr img;
     imencode := fun img => inr (jpeg img);
     path_exists := fun _ => true;
     yolo_new := fun path => inr (mkYOLO path "");
     cuda_is_available := false;
     cuda_device_info := inr tt;
     yolo_to := fun m dev => inr (mkYOLO (weights m) dev);
     yolo_predict := engine;
     inference_time := fun _ => 45 # 1 |}.

Definition loaded : YOLOModelWrapper :=
  {| _initialized := true;
     model := Some (mkYOLO "best.pt" "cpu");
     _settings := Some (cpu_fallback default_settings) |}.

Definition service : DetectionService := mkService default_settings loaded.

(** A service that accepts at most four bytes. *)
Definition small_service : DetectionService :=
  mkService (mkSettings "best.pt" (4 # 10) (45 # 100) "cpu" false 4) loaded.

(** One camera, id 0, that opens and delivers the given reads. *)
Definition camera (reads : list read_outcome) : World :=
  {| cam_open := fun id => if id =? 0 then Opened else NotOpened;
     cam_reads := reads;
     cam_captures := 0;
     cam_released := 0;
     cam_log := [] |}.

(** Three good frames, then nothing more. *)
Definition three_frames : World :=
  camera [ReadFrame (frame 1); ReadFrame (frame 2); ReadFrame (frame 3)].

(** A good frame, one the engine fails on, and a good frame. *)
Definition middle_frame_fails : World :=
  camera [ReadFrame (frame 1); ReadFrame broken_frame; ReadFrame (frame 3)].

(** A camera id with no device behind it. *)
Definition no_camera : World :=
  {| cam_open := fun _ => NotOpened;
     cam_reads := [];
     cam_captures := 0;
     cam_released := 0;
     cam_log := [] |}.

End Demo.

(** ** More of the model wrapper ([app/models/yolo_model.py]) *)

(** The property [device]. *)
Definition wrapper_device (self : YOLOModelWrapper) : string :=
  match _settings self with
  | Some s => device s
  | None => "unknown"
  end.

(** The dictionary of [model_info] when the model is loaded. *)
Record ModelInfo : Type := mkModelInfo {
  info_device : string;
  info_model_path : string;
  info_confidence_threshold : Q;
  info_half_precision : bool
}.

(** The property [model_info]: [None] stands for [{"loaded": False}]. *)
Definition model_info (self : YOLOModelWrapper) : res (option ModelInfo) :=
  if negb (is_loaded self) then Ok None
  else
    match _settings self with
    | None => Raise AttributeError
    | Some s =>
        Ok (Some (mkModelInfo (wrapper_device self) (model_path s)
                    (confidence_threshold s) (half_precision s)))
    end.

(** The class attribute [_instance]: no object yet, the object [__new__]
    has made and [__init__] has not yet given attributes, or the object
    with its attributes. *)
Inductive instance_slot : Type :=
  | NoInstance
  | Bare
  | Instance (w : YOLOModelWrapper).

(** [YOLOModelWrapper.__new__] (the lock is not modelled). *)
Definition __new__ (slot : instance_slot) : instance_slot :=
  match slot with
  | NoInstance => Bare
  | _ => slot
  end.

(** [YOLOModelWrapper.__init__], on the object of the slot: it sets the
    attributes only when [_initialized] is not there yet. *)
Definition __init__ (slot : instance_slot) : instance_slot :=
  match slot with
  | Bare => Instance new_wrapper
  | _ => slot
  end.

(** [get_model()], that is [YOLOModelWrapper()]. *)
Definition get_model (slot : instance_slot) : instance_slot :=
  __init__ (__new__ slot).

(** The attributes of the object [get_model()] returned. *)
Definition the_instance (slot : instance_slot) : YOLOModelWrapper :=
  match slot with
  | Instance w => w
  | _ => new_wrapper
  end.

(** [DetectionService(settings)]: the service takes the wrapper as
    [get_model()] gives it at that moment. *)
Definition new_DetectionService (s : Settings) (slot : instance_slot)
    : DetectionService * instance_slot :=
  let slot' := get_model slot in
  (mkService s (the_instance slot'), slot').

(** The startup half of [lifespan] ([app/main.py]): [get_model()], then
    [load_model(settings)] on the object, whose attributes go back to the
    slot; a failure is logged and raised again. *)
Definition lifespan_startup (E : External) (s : Settings)
    (slot : instance_slot) (log : list event)
    : res unit * instance_slot * Settings * list event :=
  let slot1 := get_model slot in
  let st0 := mkLoadStore (the_instance slot1) s
               (log ++ [LogInfo "Loading YOLO model..."]) in
  match load_model E st0 with
  | (Ok tt, st) =>
      (Ok tt, Instance (ld_self st), ld_settings st,
       ld_log st ++ [LogInfo "API is ready to accept requests!"])
  | (Raise e, st) =>
      (Raise e, Instance (ld_self st), ld_settings st,
       ld_log st ++ [LogError "Failed to initialize application"])
  end.

(** ** Image utilities ([app/utils/image_processing.py]) *)





(** ** The routes ([app/api/routes]) *)

(** What the routes take from the standard library. *)
Record RoutePlatform : Type := mkRoutePlatform {
  (** [Path(filename).suffix.lower()]; it raises when there is no name *)
  suffix_lower : option string -> ext string;
  (** [str] on a float *)
  str_float : Q -> string
}.

(** [validate_image_format] *)
Definition validate_image_format (P : RoutePlatform) (name : option string)
    (allowed_formats : list string) : res bool :=
  match lift_ext (suffix_lower P name) with
  | Raise e => Raise e
  | Ok file_ext => Ok (bool_decide (file_ext ∈ allowed_formats))
  end.

(** An [UploadFile]: its name and what [await file.read()] gives. *)
Record UploadFile : Type := mkUpload {
  filename : option string;
  file_read : ext (list Byte.byte)
}.

(** What a route hands to the framework: a value, or an [HTTPException]
    with its status. *)
Inductive http_result (A : Type) : Type :=
  | Returned (a : A)
  | HTTPException (status : Z).
Arguments Returned {A} a.
Arguments HTTPException {A} status.

(** The two [except] clauses every detection route ends with:
    [WeaponDetectionException] gives its own status, anything else 500. *)
Definition http_handlers {S A} (log_error : string -> S -> S) (m : M S A)
    : S -> http_result A * S :=
  fun s =>
    match m s with
    | (Ok a, s') => (Returned a, s')
    | (Raise (App e), s') =>
        (HTTPException (status_code e), log_error "Detection error" s')
    | (Raise _, s') => (HTTPException 500, log_error "Unexpected error" s')
    end.

Definition log_error_trace (msg : string) (tr : list event) : list event :=
  tr ++ [LogError msg].


(** The first statements of both image routes: the format test, then the
    read of the upload. *)
Definition read_upload (P : RoutePlatform) (allowed_image_formats : list string)
    (file : UploadFile) : M (list event) (list Byte.byte) :=
  valid <- lift (validate_image_format P (filename file) allowed_image_formats) ;;
  (if valid then ret tt else raise (App InvalidImageException)) ;;
  lift (lift_ext (file_read file)).

(** [detect_image], the route [POST /detect/image].
    [allowed_image_formats] is the field of that name of the settings. *)
Definition detect_image (P : RoutePlatform) (E : External)
    (allowed_image_formats : list string) (self : DetectionService)
    (file : UploadFile) (confidence_threshold : option Q) (save_result : bool)
    : list event -> http_result ImageDetectionResponse.t * list event :=
  http_handlers log_error_trace
    (image_data <- read_upload P allowed_image_formats file ;;
     result <- detect_from_image_file E self image_data confidence_threshold
                 save_result ;;
     log_event (LogInfo "Image detection completed") ;;
     ret result).

(** The [Response] of the annotated route. *)
Record Response : Type := mkResponse {
  content : list Byte.byte;
  media_type : string;
  headers : gmap string string
}.

(** [str(b).lower()] on a boolean. *)
Definition str_bool_lower (b : bool) : string :=
  if b then "true" else "false".

Definition annotated_headers (P : RoutePlatform)
    (result : ImageDetectionResponse.t) : gmap string string :=
  let weapon_count := ImageDetectionResponse.detection_count result in
  <["X-Detection-Count" := pretty (ImageDetectionResponse.detection_count result)]>
  (<["X-Weapon-Count" := pretty weapon_count]>
  (<["X-Inference-Time" :=
       str_float P (ImageDetectionResponse.inference_time_ms result) +:+ "ms"]>
  (<["X-Has-Weapons" :=
       str_bool_lower (ImageDetectionResponse.has_weapons result)]>
  (<["X-Image-Size" :=
       pretty (fst (ImageDetectionResponse.image_size result)) +:+ "x"
       +:+ pretty (snd (ImageDetectionResponse.image_size result))]> ∅)))).

(** [detect_image_annotated], the route [POST /detect/image/annotated]. *)
Definition detect_image_annotated (P : RoutePlatform) (E : External)
    (allowed_image_formats : list string) (self : DetectionService)
    (file : UploadFile) (confidence_threshold : option Q)
    : list event -> http_result Response * list event :=
  http_handlers log_error_trace
    (image_data <- read_upload P allowed_image_formats file ;;
     r <- detect_and_annotate_image E self image_data confidence_threshold ;;
     let '(annotated_bytes, result) := r in
     log_event (LogInfo "Annotated image detection completed") ;;
     ret (mkResponse annotated_bytes "image/jpeg" (annotated_headers P result))).


(** Carriage return, line feed. *)
Definition CRLF : string :=
  String (Ascii.ascii_of_nat 13) (String (Ascii.ascii_of_nat 10) "").

Definition encode (s : string) : list Byte.byte := String.list_byte_of_string s.

(** One part of the multipart body, as [frame_generator] builds it. *)
Definition multipart_chunk (P : RoutePlatform) (item : stream_item)
    : list Byte.byte :=
  let '(frame_bytes, detection_result) := item in
  encode ("--frame" +:+ CRLF +:+ "Content-Type: image/jpeg" +:+ CRLF
          +:+ "X-Detection-Count: ")
  ++ encode (pretty (VideoFrameDetection.detection_count detection_result))
  ++ encode (CRLF +:+ "X-Inference-Time: ")
  ++ encode (str_float P (VideoFrameDetection.inference_time_ms detection_result))
  ++ encode ("ms" +:+ CRLF +:+ "X-Has-Weapons: ")
  ++ encode (str_bool_lower (VideoFrameDetection.has_weapons detection_result))
  ++ encode (CRLF +:+ CRLF)
  ++ frame_bytes
  ++ encode CRLF.

(** What one pull of the body gives. *)
Inductive chunk_result : Type :=
  | Chunk (data : list Byte.byte)
  | EndOfBody
  | BodyError (e : exn).

(** One pull of [frame_generator]: it pulls the service's generator,
    wraps an item in its multipart part, and logs and raises again what
    the generator raises. *)
Definition frame_generator_next (P : RoutePlatform) (E : External)
    (self : DetectionService) (camera_id : Z) (confidence_threshold : option Q)
    (frame_skip : Z) (g : Generator) : Generator * chunk_result :=
  match gen_next E self camera_id confidence_threshold frame_skip g with
  | (g', Yielded item) => (g', Chunk (multipart_chunk P item))
  | (g', StopIteration) => (g', EndOfBody)
  | (g', Raised e) =>
      (mkGen (gen_at g')
         (log_world (LogError "Stream generation error") (gen_world g')),
       BodyError e)
  end.

(** The [StreamingResponse]: the body is not run when it is built. *)
Record StreamingResponse : Type := mkStreaming {
  body : Generator;
  stream_media_type : string
}.

(** [detect_video_stream], the route [GET /detect/stream]: building the
    response runs no line of either generator, so neither [except] clause
    of the route has anything to catch. *)
Definition detect_video_stream (wd : World) : http_result StreamingResponse :=
  Returned (mkStreaming (generate_video_stream wd)
              "multipart/x-mixed-replace; boundary=frame").

(** [readiness_check], the route [GET /health/ready]; an exception that
    [model_info] raises is not caught by the route. *)
Definition readiness_check (slot : instance_slot)
    : res (http_result (string * option ModelInfo)) * instance_slot :=
  let slot' := get_model slot in
  let model := the_instance slot' in
  if negb (is_loaded model) then (Ok (HTTPException 503), slot')
  else
    match model_info model with
    | Raise e => (Raise e, slot')
    | Ok info => (Ok (Returned ("ready", info)), slot')
    end.

(** Standard-library behaviour for the examples: the suffix of a few
    names, lower-cased. *)
Module DemoRoutes.

Definition platform : RoutePlatform :=
  {| suffix_lower := fun name =>
       match name with
       | None => inl "expected str, bytes or os.PathLike object, not NoneType"
       | Some n =>
           if String.eqb n "photo.JPG" then inr ".jpg"
           else if String.eqb n "scan.png" then inr ".png"
           else if String.eqb n "notes.txt" then inr ".txt"
           else inr ""
       end;
     str_float := fun q => pretty (Qnum q) +:+ "/" +:+ pretty (Zpos (Qden q)) |}.

Definition allowed : list string := [".jpg"; ".jpeg"; ".png"; ".bmp"; ".webp"].

Definition upload (name : string) (data : list Byte.byte) : UploadFile :=
  mkUpload (Some name) (inr data).

End DemoRoutes.

(** ** Vocabulary of the statements *)

(** A response's [detection_count] and [has_weapons] agree with its list. *)
Definition counts_agree (detections : list Detection) (detection_count : Z)
    (has_weapons : bool) : Prop :=
  detection_count = len detections
  /\ (has_weapons = true <-> 0 < detection_count).

(** Two worlds that differ in their log only. *)
Definition same_camera (wd wd' : World) : Prop :=
  cam_open wd' = cam_open wd /\ cam_reads wd' = cam_reads wd
  /\ cam_captures wd' = cam_captures wd /\ cam_released wd' = cam_released wd.

(** The consumer's side of one pull, then at most [n] more. *)
Definition collect (E : External) (self : DetectionService) (camera_id : Z)
    (confidence_threshold : option Q) (frame_skip : Z) (n : nat)
    (step : Generator * next_result)
    : list stream_item * option next_result * Generator :=
  match step with
  | (g, Yielded item) =>
      let '(items, fin, g') :=
        pull E self camera_id confidence_threshold frame_skip n g in
      (item :: items, fin, g')
  | (g, r) => ([], Some r, g)
  end.

(** [ceil(n / d)] for a positive [d]. *)
Definition ceil_div (n d : Z) : Z := (n + d - 1) / d.

(** The test the constructor [Detection] applies to [confidence]. *)
Definition valid_confidence (c : Q) : bool := Qle_bool 0 c && Qle_bool c 1.

(** The detection a row is mapped to, given the label of its class id. *)
Definition detection_of (label : Z -> string) (row : BoxRow) : Detection :=
  let '(a, b, c, d) := xyxy row in
  let cls_id := int_of_float (cls row) in
  mkDetection (label cls_id) (conf row) (mkBoundingBox a b c d) cls_id.

(** The label the mapper synthesizes. *)
Definition synthesized (cls_id : Z) : string := "class_" +:+ pretty cls_id.

(** The label a table gives. *)
Definition table_label (table : gmap Z string) (cls_id : Z) : string :=
  default "" (table !! cls_id).

(** A generator whose body has built its capture object: it is suspended
    with the camera not yet released, or closed with the camera released
    once. *)
Definition started (g : Generator) : Prop :=
  cam_captures (gen_world g) = 1%nat
  /\ match gen_at g with
     | GenCreated => False
     | GenSuspended _ => cam_released (gen_world g) = 0%nat
     | GenClosed => cam_released (gen_world g) = 1%nat
     end.

(** A device that stops delivering: its script is exhausted, or the next
    read gives no frame. *)
Definition stops (tail : list read_outcome) : Prop :=
  tail = [] \/ exists rest, tail = ReadNone :: rest.

(** A wrapper marked initialized holds a model and settings. *)
Definition coherent (w : YOLOModelWrapper) : Prop :=
  _initialized w = true -> is_Some (model w) /\ is_Some (_settings w).

(** What a row must satisfy for the mapper to get past it. *)
Definition row_ok (result : RawResult) (row : BoxRow) : bool :=
  valid_confidence (conf row)
  && match names result with
     | Some table => bool_decide (is_Some (table !! int_of_float (cls row)))
     | None => true
     end.

(** The label the mapper gives a class id on a given result. *)
Definition label_of (result : RawResult) : Z -> string :=
  match names result with
  | Some table => table_label table
  | None => synthesized
  end.

(** The image size the mapper reports for a result. *)
Definition size_of (result : RawResult) : Z * Z :=
  match orig_shape result with
  | Some (h, w) => (w, h)
  | None => (0, 0)
  end.

(** The least frame number a generator can still emit. *)
Definition next_number (g : Generator) : Z :=
  match gen_at g with
  | GenCreated => 0
  | GenSuspended frame_count => frame_count + 1
  | GenClosed => 0
  end.

(** More platforms for the examples. *)
Module DemoMore.

(** A platform without the weights file. *)
Definition no_weights : External :=
  {| image_open := image_open Demo.env;
     cvtColor := cvtColor Demo.env;
     imencode := imencode Demo.env;
     path_exists := fun _ => false;
     yolo_new := yolo_new Demo.env;
     cuda_is_available := false;
     cuda_device_info := inr tt;
     yolo_to := yolo_to Demo.env;
     yolo_predict := yolo_predict Demo.env;
     inference_time := inference_time Demo.env |}.

(** A platform whose engine fails on every inference. *)
Definition failing_engine : External :=
  {| image_open := image_open Demo.env;
     cvtColor := cvtColor Demo.env;
     imencode := imencode Demo.env;
     path_exists := fun _ => true;
     yolo_new := yolo_new Demo.env;
     cuda_is_available := false;
     cuda_device_info := inr tt;
     yolo_to := yolo_to Demo.env;
     yolo_predict := fun _ _ _ => inl "out of memory";
     inference_time := inference_time Demo.env |}.

Definition fresh : LoadStore := mkLoadStore new_wrapper default_settings [].

(** A service built before any load. *)
Definition unloaded_service : DetectionService :=
  mkService default_settings new_wrapper.


Definition annotated_bytes : list Byte.byte :=
  Eval vm_compute in
    match fst (detect_and_annotate_image Demo.env Demo.small_service
                 [Byte.x01] None []) with
    | Ok (b, _) => b
    | Raise _ => []
    end.


(** A platform whose decoder gives a grey-scale picture three rows high
    and four columns wide, and whose colour conversion refuses, as the
    library does, an input without the channels the code asks for. *)
Definition grey_env : External :=
  {| image_open := fun _ => inr (mkArray [3; 4] (fun _ => 0));
     cvtColor := fun img code =>
       match code with
       | COLOR_RGBA2RGB =>
           if bool_decide (length (shape img) = 3%nat) then inr img
           else inl "Invalid number of channels in input image"
       | _ => inr img
       end;
     imencode := imencode Demo.env;
     path_exists := fun _ => true;
     yolo_new := yolo_new Demo.env;
     cuda_is_available := false;
     cuda_device_info := inr tt;
     yolo_to := yolo_to Demo.env;
     yolo_predict := yolo_predict Demo.env;
     inference_time := inference_time Demo.env |}.

(** The store a first load on [Demo.env] ends with. *)
Definition loaded_store : LoadStore :=
  Eval vm_compute in snd (load_model Demo.env fresh).

(** The store a first load on [failing_engine] ends with. *)
Definition warm_up_failed_store : LoadStore :=
  Eval vm_compute in snd (load_model failing_engine fresh).

(** The store a first load on [no_weights] ends with. *)
Definition no_weights_store : LoadStore :=
  Eval vm_compute in snd (load_model no_weights fresh).

(** What the annotated route answers to a one-byte upload named
    [photo.JPG]. *)
Definition route_response : Response :=
  Eval vm_compute in
    match fst (detect_image_annotated DemoRoutes.platform Demo.env
                 DemoRoutes.allowed Demo.service
                 (DemoRoutes.upload "photo.JPG" [Byte.x01]) None []) with
    | Returned r => r
    | HTTPException _ => mkResponse [] "" ∅
    end.

Definition route_trace : list event :=
  Eval vm_compute in
    snd (detect_image_annotated DemoRoutes.platform Demo.env
           DemoRoutes.allowed Demo.service
           (DemoRoutes.upload "photo.JPG" [Byte.x01]) None []).

End DemoMore.

(** * Properties *)

(** ** Upload validation *)

Section ImageValidation.

Variable E : External.
Variable self : DetectionService.

Lemma checked_image_too_large data tr :
  max_image_size (settings self) < len data ->
  checked_image E self data tr = (Raise (App ImageTooLargeException), tr).
Proof.
  intros Hbig. unfold checked_image, bind.
  destruct (Z.ltb_spec (max_image_size (settings self)) (len data)); [done | lia].
Qed.

Lemma checked_image_within data tr :
  len data <= max_image_size (settings self) ->
  checked_image E self data tr =
    try_except (load_image E data)
      (fun e => log_event (LogError "Failed to load image") ;;
                raise (App InvalidImageException)) tr.
Proof.
  intros Hfit. unfold checked_image, bind at 1.
  destruct (Z.ltb_spec (max_image_size (settings self)) (len data)); [lia | done].
Qed.

(** Decoding starts by recording the attempt, whatever comes after. *)
Lemma load_image_trace data tr :
  exists tr', snd (load_image E data tr) = tr ++ CallDecode :: tr'.
Proof.
  unfold load_image, bind, log_event, modify, lift, raise, ret. simpl.
  exists []. destruct (lift_ext (image_open E data)) as [img | e]; simpl; [| done].
  destruct (last (shape img)); simpl; [| done].
  repeat case_match; done.
Qed.

Lemma checked_image_undecodable data tr e tr' :
  len data <= max_image_size (settings self) ->
  load_image E data tr = (Raise e, tr') ->
  checked_image E self data tr =
    (Raise (App InvalidImageException),
     tr' ++ [LogError "Failed to load image"]).
Proof.
  intros Hfit Hload. rewrite checked_image_within by done.
  unfold try_except. rewrite Hload. reflexivity.
Qed.

(** Third-party code never raises one of the application's classes. *)
Lemma lift_ext_foreign {A} (r : ext A) e :
  lift_ext r = Raise e -> exists msg, e = ForeignError msg.
Proof. destruct r as [msg | a]; simpl; [intros [= <-]; by exists msg | done]. Qed.

Lemma predict_not_too_large w img c :
  predict E w img c <> Raise (App ImageTooLargeException).
Proof.
  unfold predict. repeat case_match; try done.
  all: intros Hr; apply lift_ext_foreign in Hr as [msg Hr]; done.
Qed.

Lemma class_name_of_raises result cls_id e :
  class_name_of result cls_id = Raise e -> e = KeyError.
Proof. unfold class_name_of. repeat case_match; congruence. Qed.

Lemma process_row_raises result row e :
  process_row result row = Raise e -> e = KeyError \/ e = ValidationError.
Proof.
  unfold process_row. destruct (xyxy row) as [[[a b] c] d].
  destruct (class_name_of result _) eqn:Hn.
  - unfold new_Detection. case_match; [done | intros [= <-]; by right].
  - intros [= <-]. left. by eapply class_name_of_raises.
Qed.

Lemma process_rows_raises result rows acc e :
  process_rows result rows acc = Raise e -> e = KeyError \/ e = ValidationError.
Proof.
  revert acc. induction rows as [| row rest IH]; intros acc; simpl; [done |].
  destruct (process_row result row) eqn:Hrow.
  - apply IH.
  - intros [= <-]. by eapply process_row_raises.
Qed.

Lemma _process_results_raises results e :
  _process_results results = Raise e -> e = KeyError \/ e = ValidationError.
Proof.
  unfold _process_results. destruct results as [| result ?]; [done |].
  destruct (boxes result) as [rows |]; [| done].
  case_match; [| done].
  destruct (process_rows result rows []) eqn:Hrows; [done |].
  intros [= <-]. by eapply process_rows_raises.
Qed.

End ImageValidation.


(** C6.  An upload longer than [max_image_size] ends both image operations
    with [ImageTooLargeException], whose status is 413, and the trace is
    left as it was: in particular no decoding was attempted. *)
Theorem oversize_upload_rejected_before_decode
    (E : External) (self : DetectionService) (image_data : list Byte.byte)
    (confidence_threshold : option Q) (save_result : bool) (tr : list event) :
  max_image_size (settings self) < len image_data ->
  detect_from_image_file E self image_data confidence_threshold save_result tr
    = (Raise (App ImageTooLargeException), tr)
  /\ detect_and_annotate_image E self image_data confidence_threshold tr
    = (Raise (App ImageTooLargeException), tr)
  /\ status_code ImageTooLargeException = 413.
Proof.
  intros Hbig. split_and!; [| | reflexivity].
  - unfold detect_from_image_file, try_except, bind.
    by rewrite checked_image_too_large.
  - unfold detect_and_annotate_image, try_except, bind.
    by rewrite checked_image_too_large.
Qed.

Lemma oversize_upload_rejected_before_decode_witness :
  max_image_size (settings Demo.small_service)
    < len [Byte.x01; Byte.x02; Byte.x03; Byte.x04; Byte.x05]
  /\ detect_from_image_file Demo.env Demo.small_service
       [Byte.x01; Byte.x02; Byte.x03; Byte.x04; Byte.x05] None false []
     = (Raise (App ImageTooLargeException), []).
Proof.
  split; [reflexivity |].
  apply (oversize_upload_rejected_before_decode Demo.env Demo.small_service
           [Byte.x01; Byte.x02; Byte.x03; Byte.x04; Byte.x05] None false []).
  reflexivity.
Defined.

(** C7.  When the upload is within the size limit and loading it fails, for
    whatever reason (the decoder, the channel conversion, an array without
    shape), both image operations end with [InvalidImageException], whose
    status is 400: the failure is neither left uncaught nor turned into
    [DetectionException]. *)
Theorem undecodable_upload_is_invalid_image
    (E : External) (self : DetectionService) (image_data : list Byte.byte)
    (confidence_threshold : option Q) (save_result : bool)
    (tr tr' : list event) (e : exn) :
  len image_data <= max_image_size (settings self) ->
  load_image E image_data tr = (Raise e, tr') ->
  fst (detect_from_image_file E self image_data confidence_threshold
         save_result tr) = Raise (App InvalidImageException)
  /\ fst (detect_and_annotate_image E self image_data confidence_threshold tr)
     = Raise (App InvalidImageException)
  /\ status_code InvalidImageException = 400.
Proof.
  intros Hfit Hload. split_and!; [| | reflexivity].
  - unfold detect_from_image_file, try_except, bind.
    by rewrite (checked_image_undecodable E self _ _ e tr').
  - unfold detect_and_annotate_image, try_except, bind.
    by rewrite (checked_image_undecodable E self _ _ e tr').
Qed.

Lemma undecodable_upload_is_invalid_image_witness :
  fst (detect_from_image_file Demo.env Demo.small_service [] None false [])
  = Raise (App InvalidImageException).
Proof.
  apply (undecodable_upload_is_invalid_image Demo.env Demo.small_service
           [] None false [] [CallDecode]
           (ForeignError "cannot identify image file"));
    [vm_compute; discriminate | reflexivity].
Defined.

(** The decoder itself refusing the bytes is one such failure. *)
Lemma decoder_failure_fails_load (E : External) (data : list Byte.byte)
    (msg : string) (tr : list event) :
  image_open E data = inl msg ->
  load_image E data tr = (Raise (ForeignError msg), tr ++ [CallDecode]).
Proof.
  intros Hopen. unfold load_image, bind, log_event, modify, lift. simpl.
  by rewrite Hopen.
Qed.

(** Within the limit the operation records a decoding attempt first and
    cannot end with [ImageTooLargeException]. *)
Lemma detect_from_image_file_within
    (E : External) (self : DetectionService) (image_data : list Byte.byte)
    (confidence_threshold : option Q) (save_result : bool)
    (tr tr2 : list event) (r : res ImageDetectionResponse.t) :
  len image_data <= max_image_size (settings self) ->
  detect_from_image_file E self image_data confidence_threshold save_result tr
    = (r, tr2) ->
  r <> Raise (App ImageTooLargeException)
  /\ exists tr', tr2 = tr ++ CallDecode :: tr'.
Proof.
  intros Hfit Hrun.
  destruct (load_image_trace E image_data tr) as [tr1 Htr1].
  unfold detect_from_image_file, try_except at 1, bind at 1 in Hrun.
  rewrite checked_image_within in Hrun by done. unfold try_except at 1 in Hrun.
  destruct (load_image E image_data tr) as [[img | e] tr3]; simpl in Htr1;
    subst tr3; simpl in Hrun.
  - unfold bind, log_event, modify, lift, ret in Hrun. simpl in Hrun.
    destruct (predict E (svc_model self) img _) as [results | e] eqn:Hp;
      simpl in Hrun.
    + destruct (_process_results results) as [[dets sz] | e] eqn:Hr;
        simpl in Hrun.
      * injection Hrun as <- <-. split; [done |].
        rewrite <- !app_assoc. simpl. eauto.
      * apply _process_results_raises in Hr as [-> | ->]; simpl in Hrun;
          injection Hrun as <- <-; (split; [done |]);
          rewrite <- !app_assoc; simpl; eauto.
    + assert (e <> App ImageTooLargeException) as Hne
        by (intros ->; by eapply predict_not_too_large).
      unfold image_handlers in Hrun.
      destruct e as [[] | | | | | |]; simpl in Hrun; try done;
        injection Hrun as <- <-; (split; [done |]);
        rewrite <- ?app_assoc; simpl; eauto.
  - injection Hrun as <- <-. split; [done |].
    rewrite <- !app_assoc. simpl. eauto.
Qed.

(** C10.  An upload of exactly [max_image_size] bytes passes the size test:
    the operation goes on to decode it and does not end with
    [ImageTooLargeException]; the operation ends that way exactly when the
    upload is strictly longer. *)
Theorem size_limit_is_exclusive
    (E : External) (self : DetectionService) (image_data : list Byte.byte)
    (confidence_threshold : option Q) (save_result : bool) (tr : list event) :
  (len image_data = max_image_size (settings self) ->
     fst (detect_from_image_file E self image_data confidence_threshold
            save_result tr) <> Raise (App ImageTooLargeException)
     /\ exists tr', snd (detect_from_image_file E self image_data
                           confidence_threshold save_result tr)
                    = tr ++ CallDecode :: tr')
  /\ (fst (detect_from_image_file E self image_data confidence_threshold
             save_result tr) = Raise (App ImageTooLargeException)
      <-> max_image_size (settings self) < len image_data).
Proof.
  destruct (detect_from_image_file E self image_data confidence_threshold
              save_result tr) as [r tr2] eqn:Hrun. simpl.
  split; [| split].
  - intros Heq. eapply detect_from_image_file_within; [| done]. lia.
  - intros ->.
    destruct (Z.lt_ge_cases (max_image_size (settings self)) (len image_data))
      as [Hlt | Hge]; [done |].
    by destruct (detect_from_image_file_within _ _ _ _ _ _ _ _ Hge Hrun).
  - intros Hbig. unfold detect_from_image_file, try_except, bind in Hrun.
    rewrite checked_image_too_large in Hrun by done. by injection Hrun as <- _.
Qed.

Lemma size_limit_is_exclusive_witness :
  len [Byte.x01; Byte.x02; Byte.x03; Byte.x04]
    = max_image_size (settings Demo.small_service)
  /\ fst (detect_from_image_file Demo.env Demo.small_service
            [Byte.x01; Byte.x02; Byte.x03; Byte.x04] None false [])
     <> Raise (App ImageTooLargeException).
Proof.
  split; [reflexivity |].
  apply (proj1 (size_limit_is_exclusive Demo.env Demo.small_service
                  [Byte.x01; Byte.x02; Byte.x03; Byte.x04] None false [])).
  reflexivity.
Defined.



(** ** Response shapes *)

Lemma counts_agree_len (detections : list Detection) :
  counts_agree detections (len detections) (0 <? len detections).
Proof. split; [done |]. apply Z.ltb_lt. Qed.

Lemma image_handlers_raise {A} msg e tr (r : res A) tr' :
  image_handlers msg e tr = (r, tr') -> exists e', r = Raise e'.
Proof.
  unfold image_handlers, bind, log_event, modify, raise.
  intros H. repeat case_match; simplify_eq; eauto.
Qed.

Lemma detect_from_image_file_ok E self data conf save tr r tr' :
  detect_from_image_file E self data conf save tr = (Ok r, tr') ->
  exists detections time size,
    r = ImageDetectionResponse.new detections (len detections) time size
          (0 <? len detections).
Proof.
  unfold detect_from_image_file, try_except, bind, lift, log_event, modify, ret.
  intros H. destruct (checked_image E self data tr) as [[img | e] tr1]; simpl in H.
  - destruct (predict E _ img _) as [results | e]; simpl in H.
    + destruct (_process_results results) as [[dets sz] | e]; simpl in H.
      * injection H as <- _. eauto.
      * by apply image_handlers_raise in H as [e' ?].
    + by apply image_handlers_raise in H as [e' ?].
  - by apply image_handlers_raise in H as [e' ?].
Qed.

Lemma detect_and_annotate_image_ok E self data conf tr bytes r tr' :
  detect_and_annotate_image E self data conf tr = (Ok (bytes, r), tr') ->
  exists detections time size,
    r = ImageDetectionResponse.new detections (len detections) time size
          (0 <? len detections).
Proof.
  unfold detect_and_annotate_image, try_except, bind, lift, log_event, modify, ret.
  intros H. destruct (checked_image E self data tr) as [[img | e] tr1]; simpl in H;
    [| by apply image_handlers_raise in H as [e' ?]].
  destruct (predict E _ img _) as [results | e]; simpl in H;
    [| by apply image_handlers_raise in H as [e' ?]].
  destruct (_process_results results) as [[dets sz] | e]; simpl in H;
    [| by apply image_handlers_raise in H as [e' ?]].
  destruct results as [| result rest]; simpl in H.
  - destruct (lift_ext (cvtColor E img _)) as [bgr | e]; simpl in H;
      [| by apply image_handlers_raise in H as [e' ?]].
    destruct (lift_ext (imencode E bgr)) as [b | e]; simpl in H;
      [| by apply image_handlers_raise in H as [e' ?]].
    injection H as _ <- _. eauto.
  - destruct (lift_ext (plot result)) as [ann | e]; simpl in H;
      [| by apply image_handlers_raise in H as [e' ?]].
    destruct (lift_ext (cvtColor E ann _)) as [bgr | e]; simpl in H;
      [| by apply image_handlers_raise in H as [e' ?]].
    destruct (lift_ext (imencode E bgr)) as [b | e]; simpl in H;
      [| by apply image_handlers_raise in H as [e' ?]].
    injection H as _ <- _. eauto.
Qed.

(** [detect_frame] only writes to the log, and a result it returns carries
    the frame number it was given and counts that agree. *)
Lemma detect_frame_spec E self conf n frame wd out wd' :
  detect_frame E self conf n frame wd = (out, wd') ->
  wd' = log_world CallPredict wd
  /\ forall img r, out = Ok (img, r) ->
       exists detections time,
         r = VideoFrameDetection.new n detections (len detections) time
               (0 <? len detections).
Proof.
  unfold detect_frame, bind, lift, modify, ret. simpl. intros H.
  destruct (predict E _ frame _) as [results | e]; simpl in H;
    [| by injection H as <- <-].
  destruct (_process_results results) as [[dets sz] | e]; simpl in H;
    [| by injection H as <- <-].
  destruct results as [| result rest]; simpl in H.
  - injection H as <- <-. split; [done |]. intros img r [= <- <-]. eauto.
  - destruct (lift_ext (plot result)) as [ann | e]; simpl in H;
      injection H as <- <-; (split; [done |]); [| done].
    intros img r [= <- <-]. eauto.
Qed.

Lemma same_camera_refl wd : same_camera wd wd.
Proof. by repeat split. Qed.

Lemma same_camera_log e wd : same_camera wd (log_world e wd).
Proof. by repeat split. Qed.

(** The inner [try] block touches nothing but the log; what it yields is
    numbered with the current counter. *)
Lemma process_frame_spec E self conf n frame wd out wd' :
  process_frame E self conf n frame wd = (out, wd') ->
  same_camera wd wd'
  /\ forall item, out = Ok item ->
       VideoFrameDetection.frame_number (snd item) = n
       /\ counts_agree (VideoFrameDetection.detections (snd item))
            (VideoFrameDetection.detection_count (snd item))
            (VideoFrameDetection.has_weapons (snd item)).
Proof.
  unfold process_frame, bind at 1. intros H.
  destruct (detect_frame E self conf n frame wd) as [[[img r] | e] wd1] eqn:Hd.
  - apply detect_frame_spec in Hd as [-> Hr].
    destruct (Hr img r eq_refl) as (dets & time & ->).
    unfold bind, modify, lift, ret in H. simpl in H.
    destruct (lift_ext (imencode E img)) as [b | e]; simpl in H;
      injection H as <- <-.
    + split; [by repeat split |]. intros item [= <-]. simpl.
      split; [done | apply counts_agree_len].
    + split; [by repeat split | done].
  - apply detect_frame_spec in Hd as [-> _]. injection H as <- <-.
    split; [by repeat split | done].
Qed.

Section StreamFacts.

Variable E : External.
Variable self : DetectionService.
Variable camera_id : Z.
Variable confidence_threshold : option Q.
Variable frame_skip : Z.

Local Abbreviation conf := (threshold self confidence_threshold).

(** A run of the loop leaves the capture and release counts alone, and an
    item it yields has counts that agree. *)
Lemma stream_loop_spec reads frame_count wd out wd' :
  stream_loop E self conf frame_skip reads frame_count wd = (out, wd') ->
  cam_captures wd' = cam_captures wd /\ cam_released wd' = cam_released wd
  /\ forall item n, out = Ok (LoopYield item n) ->
       VideoFrameDetection.frame_number (snd item) = n
       /\ counts_agree (VideoFrameDetection.detections (snd item))
            (VideoFrameDetection.detection_count (snd item))
            (VideoFrameDetection.has_weapons (snd item)).
Proof.
  revert frame_count wd.
  induction reads as [| r rest IH]; intros frame_count wd; simpl.
  - intros [= <- <-]. by repeat split.
  - destruct r as [frame | | msg]; try (intros [= <- <-]; by repeat split).
    destruct (frame_skip + 1 =? 0); [intros [= <- <-]; by repeat split |].
    destruct (negb (frame_count mod (frame_skip + 1) =? 0)).
    { intros H. by apply IH in H. }
    destruct (process_frame E self conf frame_count frame (set_reads rest wd))
      as [[item | e] wd1] eqn:Hp;
      apply process_frame_spec in Hp as [(_ & _ & Hc & Hr) Hitem].
    + intros [= <- <-]. simpl in *. split_and!; [done | done |].
      intros item' n [= <- <-]. by apply Hitem.
    + intros H. apply IH in H as (Hc' & Hr' & Hy). simpl in *.
      split_and!; [congruence | congruence | done].
Qed.

Lemma gen_next_yield_agrees g g' item :
  gen_next E self camera_id confidence_threshold frame_skip g
    = (g', Yielded item) ->
  counts_agree (VideoFrameDetection.detections (snd item))
    (VideoFrameDetection.detection_count (snd item))
    (VideoFrameDetection.has_weapons (snd item)).
Proof.
  assert (Hloop : forall n wd, run_loop E self confidence_threshold frame_skip n wd
                               = (g', Yielded item) ->
            counts_agree (VideoFrameDetection.detections (snd item))
              (VideoFrameDetection.detection_count (snd item))
              (VideoFrameDetection.has_weapons (snd item))).
  { intros n wd. unfold run_loop, after_loop.
    destruct (stream_loop _ _ _ _ _ _ _) as [[[it m |] | e] wd1] eqn:Hs;
      try done.
    - intros [= <- <-]. apply stream_loop_spec in Hs as (_ & _ & Hy).
      by apply (Hy it m).
    - by destruct (stream_handlers e wd1). }
  unfold gen_next. destruct (gen_at g); [| by apply Hloop | done].
  destruct (VideoCapture camera_id (gen_world g)) as [[[] | e] wd1].
  - by apply Hloop.
  - by destruct (stream_handlers _ wd1).
  - by destruct (stream_handlers _ wd1).
Qed.

Lemma pull_items_agree n g items fin g' :
  pull E self camera_id confidence_threshold frame_skip n g = (items, fin, g') ->
  Forall (fun item =>
            counts_agree (VideoFrameDetection.detections (snd item))
              (VideoFrameDetection.detection_count (snd item))
              (VideoFrameDetection.has_weapons (snd item))) items.
Proof.
  revert g items fin g'. induction n as [| n IH]; intros g items fin g'; simpl.
  - by intros [= <- _ _].
  - destruct (gen_next _ _ _ _ _ g) as [g1 [item | | e]] eqn:Hn;
      try by intros [= <- _ _].
    destruct (pull _ _ _ _ _ n g1) as [[items1 fin1] g2] eqn:Hp.
    intros [= <- _ _]. constructor; [by eapply gen_next_yield_agrees | by eapply IH].
Qed.

End StreamFacts.

Lemma detect_from_camera_ok E self camera_id conf wd img r wd' :
  detect_from_camera E self camera_id conf wd = (Ok (img, r), wd') ->
  exists detections time,
    r = VideoFrameDetection.new 0 detections (len detections) time
          (0 <? len detections).
Proof.
  unfold detect_from_camera, try_except, bind at 1. intros H.
  assert (Hh : forall e w (x : res (ndarray * VideoFrameDetection.t)) w',
            match e with
            | App CameraNotFoundException => raise e
            | App VideoStreamException => raise e
            | _ => modify (log_world (LogError "Camera detection failed")) ;;
                   raise (App DetectionException)
            end w = (x, w') -> exists e', x = Raise e').
  { intros e w x w'. unfold bind, modify, raise.
    intros He. repeat case_match; simplify_eq; eauto. }
  destruct (VideoCapture camera_id wd) as [[opened | e] wd1]; simpl in H;
    [| by apply Hh in H as [e' ?]].
  unfold bind, ret, raise, modify in H.
  destruct opened; simpl in H; [| done].
  destruct (cap_read wd1) as [[[frame |] | e] wd2]; simpl in H;
    first [done | by apply Hh in H as [e' ?] | idtac].
  destruct (detect_frame E self _ 0 frame (cap_release wd2))
    as [[[img1 r1] | e] wd3] eqn:Hd; [| by apply Hh in H as [e' ?]].
  injection H as <- <- _. apply detect_frame_spec in Hd as [_ Hr].
  by apply (Hr img1 r1).
Qed.

(** C5.  In every response the service builds (image detection, annotated
    image, single camera frame, each item of a stream) [detection_count] is
    the length of [detections] and [has_weapons] holds exactly when the
    count is positive; a result without rows is mapped to the empty list,
    and a response with no detection has count 0 and [has_weapons] false. *)
Theorem has_weapons_iff_positive_count (E : External) (self : DetectionService) :
  (forall data conf save tr r tr',
     detect_from_image_file E self data conf save tr = (Ok r, tr') ->
     counts_agree (ImageDetectionResponse.detections r)
       (ImageDetectionResponse.detection_count r)
       (ImageDetectionResponse.has_weapons r))
  /\ (forall data conf tr bytes r tr',
        detect_and_annotate_image E self data conf tr = (Ok (bytes, r), tr') ->
        counts_agree (ImageDetectionResponse.detections r)
          (ImageDetectionResponse.detection_count r)
          (ImageDetectionResponse.has_weapons r))
  /\ (forall camera_id conf wd img r wd',
        detect_from_camera E self camera_id conf wd = (Ok (img, r), wd') ->
        counts_agree (VideoFrameDetection.detections r)
          (VideoFrameDetection.detection_count r)
          (VideoFrameDetection.has_weapons r))
  /\ (forall camera_id conf frame_skip n g items fin g',
        pull E self camera_id conf frame_skip n g = (items, fin, g') ->
        forall item, item ∈ items ->
          counts_agree (VideoFrameDetection.detections (snd item))
            (VideoFrameDetection.detection_count (snd item))
            (VideoFrameDetection.has_weapons (snd item)))
  /\ (forall result rest,
        boxes result = None \/ boxes result = Some [] ->
        exists size, _process_results (result :: rest) = Ok ([], size))
  /\ (forall data conf save tr r tr',
        detect_from_image_file E self data conf save tr = (Ok r, tr') ->
        ImageDetectionResponse.detections r = [] ->
        ImageDetectionResponse.detection_count r = 0
        /\ ImageDetectionResponse.has_weapons r = false).
Proof.
  split_and!.
  - intros data conf save tr r tr' H.
    apply detect_from_image_file_ok in H as (dets & time & size & ->).
    apply counts_agree_len.
  - intros data conf tr bytes r tr' H.
    apply detect_and_annotate_image_ok in H as (dets & time & size & ->).
    apply counts_agree_len.
  - intros camera_id conf wd img r wd' H.
    apply detect_from_camera_ok in H as (dets & time & ->).
    apply counts_agree_len.
  - intros camera_id conf frame_skip n g items fin g' H item Hin.
    apply pull_items_agree in H. by eapply Forall_forall in H.
  - intros result rest [Hb | Hb]; unfold _process_results; rewrite Hb; eauto.
  - intros data conf save tr r tr' H.
    apply detect_from_image_file_ok in H as (dets & time & size & ->). simpl.
    by intros ->.
Qed.

Lemma has_weapons_iff_positive_count_witness :
  exists r tr',
    detect_from_image_file Demo.env Demo.small_service [Byte.x00] None false []
      = (Ok r, tr')
    /\ ImageDetectionResponse.detections r = []
    /\ ImageDetectionResponse.detection_count r = 0
    /\ ImageDetectionResponse.has_weapons r = false.
Proof.
  eexists _, _. split; [reflexivity |]. split; [reflexivity |].
  apply (proj2 (proj2 (proj2 (proj2 (proj2
           (has_weapons_iff_positive_count Demo.env Demo.small_service)))))
           [Byte.x00] None false [] _ _ eq_refl).
  reflexivity.
Defined.


(** ** The result mapper *)

Lemma process_rows_mapped result label rows acc :
  Forall (fun row => valid_confidence (conf row) = true
                     /\ class_name_of result (int_of_float (cls row))
                        = Ok (label (int_of_float (cls row)))) rows ->
  process_rows result rows acc = Ok (acc ++ map (detection_of label) rows).
Proof.
  intros Hrows. revert acc.
  induction Hrows as [| row rest [Hconf Hname] _ IH]; intros acc; simpl.
  - by rewrite app_nil_r.
  - unfold process_row, detection_of.
    destruct (xyxy row) as [[[a b] c] d]. rewrite Hname.
    unfold new_Detection. fold (valid_confidence (conf row)). rewrite Hconf.
    rewrite IH. f_equal. by rewrite <- app_assoc.
Qed.

Lemma _process_results_mapped result rest label rows :
  boxes result = Some rows ->
  Forall (fun row => valid_confidence (conf row) = true
                     /\ class_name_of result (int_of_float (cls row))
                        = Ok (label (int_of_float (cls row)))) rows ->
  exists size,
    _process_results (result :: rest) = Ok (map (detection_of label) rows, size).
Proof.
  intros Hb Hrows. unfold _process_results. rewrite Hb.
  destruct (0 <? len rows) eqn:Hlen.
  - rewrite (process_rows_mapped result label rows []) by done. simpl. eauto.
  - destruct rows; [simpl; eauto |]. unfold len in Hlen. simpl in Hlen.
    apply Z.ltb_ge in Hlen. lia.
Qed.

(** C8, the claim as stated fails: a result that carries a table of names
    and whose second row has a class id missing from the table is not
    mapped at all; the lookup raises and the first row is lost with it. *)
Lemma missing_class_name_aborts_mapping :
  Demo.gun_names !! int_of_float (cls Demo.knife_row) = None
  /\ _process_results
       [mkRaw (Some (2, 2)) (Some [Demo.gun_row; Demo.knife_row])
              (Some Demo.gun_names) (inr (Demo.frame 1))]
     = Raise KeyError.
Proof. split; reflexivity. Qed.

(** C8, amended.  The rows of a result are mapped in order, one detection
    per row.  The label ["class_<id>"] is synthesized when the result as a
    whole carries no table of names, and then for every row; when it
    carries a table, each row takes the name the table gives its class id,
    provided every class id is in the table. *)
Theorem rows_mapped_in_order_with_result_wide_fallback
    (result : RawResult) (rest : list RawResult) (rows : list BoxRow) :
  boxes result = Some rows ->
  Forall (fun row => valid_confidence (conf row) = true) rows ->
  (names result = None ->
     exists size,
       _process_results (result :: rest)
       = Ok (map (detection_of synthesized) rows, size))
  /\ (forall table,
        names result = Some table ->
        Forall (fun row => is_Some (table !! int_of_float (cls row))) rows ->
        exists size,
          _process_results (result :: rest)
          = Ok (map (detection_of (table_label table)) rows, size)).
Proof.
  intros Hb Hconf. split.
  - intros Hnone. apply _process_results_mapped; [done |].
    eapply Forall_impl; [exact Hconf |]. intros row Hrow. split; [done |].
    unfold class_name_of. by rewrite Hnone.
  - intros table Hsome Hin. apply _process_results_mapped; [done |].
    apply Forall_forall. intros row Hrow. split.
    + by eapply Forall_forall in Hconf.
    + eapply Forall_forall in Hin as [name Hname]; [| done].
      unfold class_name_of, table_label. by rewrite Hsome, Hname.
Qed.

Lemma rows_mapped_in_order_with_result_wide_fallback_witness :
  exists size,
    _process_results
      [mkRaw (Some (2, 2)) (Some [Demo.gun_row; Demo.knife_row]) None
             (inr (Demo.frame 1))]
    = Ok (map (detection_of synthesized) [Demo.gun_row; Demo.knife_row], size).
Proof.
  apply (proj1 (rows_mapped_in_order_with_result_wide_fallback
                  (mkRaw (Some (2, 2)) (Some [Demo.gun_row; Demo.knife_row])
                         None (inr (Demo.frame 1)))
                  [] [Demo.gun_row; Demo.knife_row] eq_refl
                  ltac:(repeat constructor))).
  reflexivity.
Defined.

(** ** The model wrapper *)

(** A run of the [try] block that ends without exception leaves the
    wrapper loaded. *)
Lemma load_model_body_loaded E st st' :
  load_model_body E st = (Ok tt, st') -> is_loaded (ld_self st') = true.
Proof.
  unfold load_model_body, bind, emit_load, set_self, set_settings, gets,
    modify, lift, ret, raise. simpl. intros H.
  destruct (path_exists E _); simpl in H; [| done].
  destruct (lift_ext (yolo_new E _)) as [m |]; simpl in H; [| done].
  destruct (String.eqb (device (ld_settings st)) "cuda"); simpl in H.
  - destruct (cuda_is_available E); simpl in H.
    + destruct (lift_ext (cuda_device_info E)); simpl in H; [| done].
      destruct (lift_ext (yolo_to E m _)) as [m' |]; simpl in H; [| done].
      destruct (half_precision (ld_settings st) && _); simpl in H;
        destruct (lift_ext (yolo_predict E m' _ _)); simpl in H; try done;
        by injection H as <-.
    + destruct (lift_ext (yolo_to E m _)) as [m' |]; simpl in H; [| done].
      destruct (lift_ext (yolo_predict E m' _ _)); simpl in H; [| done].
      by injection H as <-.
  - destruct (lift_ext (yolo_to E m _)) as [m' |]; simpl in H; [| done].
    destruct (half_precision (ld_settings st) && _); simpl in H;
      destruct (lift_ext (yolo_predict E m' _ _)); simpl in H; try done;
      by injection H as <-.
Qed.

Lemma load_model_loaded E st st' :
  load_model E st = (Ok tt, st') -> is_loaded (ld_self st') = true.
Proof.
  unfold load_model. destruct (is_loaded (ld_self st)) eqn:Hl.
  - unfold emit_load, modify. by intros [= <-].
  - unfold try_except.
    destruct (load_model_body E st) as [[[] | e] st1] eqn:Hb.
    + intros [= <-]. by eapply load_model_body_loaded.
    + unfold bind, emit_load, modify, raise. simpl. done.
Qed.

(** C9.  After a load that succeeded, any further call of [load_model],
    with whatever platform and whatever settings object, returns without
    error and without building a model: the wrapper and the settings are
    left as they are and the only trace is the log line saying that the
    model is already loaded. *)
Theorem load_model_idempotent (E : External) (st st' : LoadStore) :
  load_model E st = (Ok tt, st') ->
  forall (E' : External) (settings' : Settings) (log' : list event),
    load_model E' (mkLoadStore (ld_self st') settings' log')
    = (Ok tt,
       mkLoadStore (ld_self st') settings'
         (log' ++ [LogInfo "Model already loaded, skipping initialization"])).
Proof.
  intros Hfirst E' settings' log'.
  apply load_model_loaded in Hfirst.
  unfold load_model. simpl. by rewrite Hfirst.
Qed.

Lemma load_model_idempotent_witness :
  exists st',
    load_model Demo.env (mkLoadStore new_wrapper default_settings []) = (Ok tt, st')
    /\ load_model Demo.env st'
       = (Ok tt,
          mkLoadStore (ld_self st') (ld_settings st')
            (ld_log st'
               ++ [LogInfo "Model already loaded, skipping initialization"])).
Proof.
  eexists. split; [reflexivity |].
  apply (load_model_idempotent Demo.env
           (mkLoadStore new_wrapper default_settings []) _ eq_refl Demo.env).
Defined.


(** ** The streaming generator: release of the camera *)

Section Release.

Variable E : External.
Variable self : DetectionService.
Variable camera_id : Z.
Variable confidence_threshold : option Q.
Variable frame_skip : Z.

Local Abbreviation next := (gen_next E self camera_id confidence_threshold frame_skip).
Local Abbreviation close := (gen_close).
Local Abbreviation loop := (run_loop E self confidence_threshold frame_skip).

Lemma stream_handlers_same e wd :
  same_camera wd (snd (stream_handlers e wd)).
Proof.
  unfold stream_handlers. repeat case_match; simpl;
    auto using same_camera_refl, same_camera_log.
Qed.

(** One run of the loop, entered with the camera held: it suspends with
    the camera still held, or it ends and releases it. *)
Lemma run_loop_started n wd :
  cam_captures wd = 1%nat -> cam_released wd = 0%nat ->
  started (fst (loop n wd))
  /\ ((forall item, snd (loop n wd) <> Yielded item) ->
      gen_at (fst (loop n wd)) = GenClosed).
Proof.
  intros Hc Hr. unfold run_loop, after_loop.
  destruct (stream_loop _ _ _ _ _ _ _) as [[[item m |] | e] wd1] eqn:Hs;
    apply stream_loop_spec in Hs as (Hc1 & Hr1 & _); simpl.
  - split; [split; simpl; congruence |]. intros Hno. by destruct (Hno item).
  - split; [split; simpl; congruence | done].
  - pose proof (stream_handlers_same e wd1) as (_ & _ & Hc2 & Hr2).
    destruct (stream_handlers e wd1) as [e' wd2]. simpl in *.
    split; [split; simpl; congruence | done].
Qed.

Lemma gen_next_started g :
  started g ->
  started (fst (next g))
  /\ ((forall item, snd (next g) <> Yielded item) ->
      gen_at (fst (next g)) = GenClosed).
Proof.
  intros [Hc Hst]. unfold gen_next.
  destruct g as [[| m |] wd]; simpl in *; [done | | done].
  by apply run_loop_started.
Qed.

Lemma gen_close_started g :
  started g -> started (close g) /\ gen_at (close g) = GenClosed.
Proof.
  intros [Hc Hst]. unfold gen_close.
  destruct g as [[| m |] wd]; simpl in *; [done | | done].
  split; [| done]. split; simpl; congruence.
Qed.

(** The first pull of a fresh generator, on a camera id for which a capture
    object can be built. *)
Lemma first_next_started wd :
  cam_captures wd = 0%nat -> cam_released wd = 0%nat ->
  (forall msg, cam_open wd camera_id <> OpenRaises msg) ->
  started (fst (next (generate_video_stream wd))).
Proof.
  intros Hc Hr Hopen. unfold gen_next, generate_video_stream, VideoCapture. simpl.
  destruct (cam_open wd camera_id) as [| | msg] eqn:Ho.
  - apply run_loop_started; simpl; congruence.
  - simpl. split; simpl; congruence.
  - by destruct (Hopen msg).
Qed.

Lemma consume_started g op :
  started g -> started (consume E self camera_id confidence_threshold frame_skip g op).
Proof.
  intros Hs. destruct op; simpl.
  - by apply gen_next_started.
  - by apply gen_close_started.
Qed.

Lemma consume_all_started ops g :
  started g ->
  started (consume_all E self camera_id confidence_threshold frame_skip ops g).
Proof.
  revert g. induction ops as [| op ops IH]; intros g Hs; simpl; [done |].
  apply IH. by apply consume_started.
Qed.

End Release.

(** C3.  Take a fresh generator on a camera for which the capture object
    can be built, and let the consumer start it and then pull or close in
    any order.  At every moment the camera has been released once if the
    generator has finished and not at all otherwise; and each way out
    (the iteration ending, an exception reaching the consumer, the
    consumer closing the generator) leaves the generator finished, hence
    with exactly one release. *)
Theorem camera_released_exactly_once
    (E : External) (self : DetectionService) (camera_id : Z)
    (confidence_threshold : option Q) (frame_skip : Z) (wd : World)
    (ops : list consumer_op) :
  cam_captures wd = 0%nat -> cam_released wd = 0%nat ->
  (forall msg, cam_open wd camera_id <> OpenRaises msg) ->
  let g := consume_all E self camera_id confidence_threshold frame_skip
             (DoNext :: ops) (generate_video_stream wd) in
  (gen_at g = GenClosed -> cam_released (gen_world g) = 1%nat)
  /\ (gen_at g <> GenClosed -> cam_released (gen_world g) = 0%nat)
  /\ (forall g' r,
        gen_next E self camera_id confidence_threshold frame_skip g = (g', r) ->
        (forall item, r <> Yielded item) ->
        gen_at g' = GenClosed /\ cam_released (gen_world g') = 1%nat)
  /\ (gen_at (gen_close g) = GenClosed
      /\ cam_released (gen_world (gen_close g)) = 1%nat).
Proof.
  intros Hc Hr Hopen g.
  assert (Hg : started g).
  { apply (consume_all_started E self camera_id confidence_threshold
             frame_skip ops
             (fst (gen_next E self camera_id confidence_threshold frame_skip
                     (generate_video_stream wd)))).
    by apply first_next_started. }
  split_and!.
  - destruct Hg as [_ Hg]. intros Hat. by rewrite Hat in Hg.
  - destruct Hg as [_ Hg]. intros Hat. by destruct (gen_at g).
  - intros g' r Hnext Hno.
    destruct (gen_next_started E self camera_id confidence_threshold
                frame_skip g Hg) as [[_ Hs] Hcl].
    rewrite Hnext in Hs, Hcl. simpl in *.
    specialize (Hcl Hno). rewrite Hcl in Hs. done.
  - by destruct (gen_close_started g Hg) as [_ Hcl].
  - destruct (gen_close_started g Hg) as [[_ Hs] Hcl].
    by rewrite Hcl in Hs.
Qed.

Lemma camera_released_exactly_once_witness :
  gen_at (consume_all Demo.env Demo.service 0 None 0 [DoNext; DoNext; DoClose]
            (generate_video_stream Demo.three_frames)) = GenClosed
  /\ cam_released
       (gen_world
          (consume_all Demo.env Demo.service 0 None 0 [DoNext; DoNext; DoClose]
             (generate_video_stream Demo.three_frames))) = 1%nat.
Proof.
  split; [reflexivity |].
  apply (proj1 (camera_released_exactly_once Demo.env Demo.service 0 None 0
                  Demo.three_frames [DoNext; DoClose] eq_refl eq_refl
                  ltac:(intros msg; discriminate))).
  reflexivity.
Defined.

(** ** The streaming generator: what a run emits *)

(** Counting the multiples of [d] below [n]. *)
Lemma multiples_below (d : Z) (n : nat) :
  0 < d ->
  len (filter (fun i => i mod d = 0) (seqZ 0 (Z.of_nat n)))
  = ceil_div (Z.of_nat n) d.
Proof.
  intros Hd. unfold ceil_div, len. induction n as [| n IH].
  - simpl. symmetry. apply Z.div_small. lia.
  - rewrite Nat2Z.inj_succ, <- Z.add_1_r.
    rewrite seqZ_app by lia. rewrite filter_app, length_app, Nat2Z.inj_add, IH.
    change (seqZ (0 + Z.of_nat n) 1) with [0 + Z.of_nat n]. simpl (0 + _).
    pose proof (Z.div_mod (Z.of_nat n) d ltac:(lia)) as Hdm.
    pose proof (Z.mod_pos_bound (Z.of_nat n) d Hd) as Hb.
    set (q := Z.of_nat n / d) in *. set (r := Z.of_nat n mod d) in *.
    destruct (decide (r = 0)) as [Hr | Hr].
    + rewrite filter_cons_True by done. simpl.
      rewrite <- (Z.div_unique (Z.of_nat n + d - 1) d q (d - 1)) by lia.
      rewrite <- (Z.div_unique (Z.of_nat n + 1 + d - 1) d (q + 1) 0) by lia. lia.
    + rewrite filter_cons_False by done. simpl.
      rewrite <- (Z.div_unique (Z.of_nat n + d - 1) d (q + 1) (r - 1)) by lia.
      rewrite <- (Z.div_unique (Z.of_nat n + 1 + d - 1) d (q + 1) r) by lia. lia.
Qed.

Section Runs.

Variable E : External.
Variable self : DetectionService.
Variable camera_id : Z.
Variable confidence_threshold : option Q.
Variable frame_skip : Z.

Local Abbreviation conf := (threshold self confidence_threshold).
Local Abbreviation gathered :=
  (collect E self camera_id confidence_threshold frame_skip).

Lemma pull_succ n g :
  pull E self camera_id confidence_threshold frame_skip (S n) g
  = gathered n (gen_next E self camera_id confidence_threshold frame_skip g).
Proof. simpl. unfold collect. by destruct (gen_next _ _ _ _ _ g) as [g' []]. Qed.

Lemma gen_next_suspended c wd :
  gen_next E self camera_id confidence_threshold frame_skip
    (mkGen (GenSuspended c) wd)
  = after_loop (stream_loop E self conf frame_skip (cam_reads wd) (c + 1) wd).
Proof. reflexivity. Qed.

(** Frames followed by a failed read: however the frames fare, the
    iteration ends with [StopIteration] once the failed read is reached. *)
Lemma loop_ends_cleanly tail frames :
  frame_skip + 1 <> 0 -> stops tail ->
  forall c wd n, (length frames <= n)%nat ->
    exists items g,
      gathered n
        (after_loop (stream_loop E self conf frame_skip
                       (map ReadFrame frames ++ tail) c wd))
      = (items, Some StopIteration, g)
      /\ gen_at g = GenClosed.
Proof.
  intros Hk Htail. induction frames as [| frame rest IH]; intros c wd n Hn.
  - destruct Htail as [-> | [rest ->]]; simpl; eauto.
  - simpl. destruct (Z.eqb_spec (frame_skip + 1) 0) as [| _]; [done |].
    destruct (negb (c mod (frame_skip + 1) =? 0)).
    { apply IH. simpl in Hn. lia. }
    destruct (process_frame E self conf c frame _) as [[item | e] wd1] eqn:Hp;
      apply process_frame_spec in Hp as [(_ & Hreads & _ & _) _];
      simpl in Hreads.
    + destruct n as [| n]; [simpl in Hn; lia |].
      simpl after_loop. unfold collect at 1. rewrite pull_succ.
      rewrite gen_next_suspended, Hreads.
      destruct (IH (c + 1) wd1 n ltac:(simpl in Hn; lia))
        as (items & g & -> & Hg).
      eauto.
    + apply IH. simpl in Hn. lia.
Qed.

(** Frames that are all processed without failure, then the end of the
    script: the items carry the counters divisible by [frame_skip + 1]. *)
Lemma loop_emits_multiples frames :
  0 <= frame_skip ->
  (forall frame c wd, frame ∈ frames ->
     is_ok (fst (process_frame E self conf c frame wd)) = true) ->
  forall c wd n, (length frames <= n)%nat ->
    exists items g,
      gathered n
        (after_loop (stream_loop E self conf frame_skip
                       (map ReadFrame frames) c wd))
      = (items, Some StopIteration, g)
      /\ frame_numbers items
         = filter (fun i => i mod (frame_skip + 1) = 0) (seqZ c (len frames)).
Proof.
  intros Hk. induction frames as [| frame rest IH]; intros Hok c wd n Hn.
  - simpl. eauto.
  - assert (Hrest : forall frame c wd, frame ∈ rest ->
              is_ok (fst (process_frame E self conf c frame wd)) = true)
      by (intros; apply Hok; by right).
    specialize (IH Hrest).
    replace (len (frame :: rest)) with (Z.succ (len rest))
      by (unfold len; simpl length; lia).
    rewrite seqZ_cons by (unfold len; lia). rewrite Z.pred_succ.
    simpl stream_loop.
    destruct (Z.eqb_spec (frame_skip + 1) 0) as [| _]; [lia |].
    destruct (Z.eqb_spec (c mod (frame_skip + 1)) 0) as [Hc | Hc]; simpl negb; cbv iota.
    + rewrite filter_cons_True by done.
      specialize (Hok frame c (set_reads (map ReadFrame rest) wd)
                    ltac:(by left)).
      destruct (process_frame E self conf c frame _) as [[item | e] wd1] eqn:Hp;
        [| done].
      apply process_frame_spec in Hp as [(_ & Hreads & _ & _) Hitem].
      destruct (Hitem item eq_refl) as [Hnum _]. simpl in Hreads.
      destruct n as [| n]; [simpl in Hn; lia |].
      simpl after_loop. unfold collect at 1. rewrite pull_succ.
      rewrite gen_next_suspended, Hreads.
      destruct (IH (c + 1) wd1 n ltac:(simpl in Hn; lia))
        as (items & g & -> & Hnums).
      eexists _, _. split; [reflexivity |].
      unfold frame_numbers in *. simpl. rewrite Hnum. f_equal. exact Hnums.
    + rewrite filter_cons_False by done.
      destruct (IH (c + 1) (set_reads (map ReadFrame rest) wd) n
                  ltac:(simpl in Hn; lia)) as (items & g & Hrun & Hnums).
      exists items, g. split; [exact Hrun | exact Hnums].
Qed.

End Runs.

(** C1.  With [frame_skip = k >= 0], a camera that opens and delivers [N]
    frames, none of which fails in processing: the consumer receives the
    items numbered with the read indices divisible by [k + 1], from 0 on,
    in order, then the end of the iteration; there are at most
    [ceil(N / (k + 1))] of them. *)
Theorem frame_skip_emits_multiples
    (E : External) (self : DetectionService) (camera_id : Z)
    (confidence_threshold : option Q) (frame_skip : Z) (wd : World)
    (frames : list ndarray) (n : nat) :
  0 <= frame_skip ->
  cam_open wd camera_id = Opened ->
  cam_reads wd = map ReadFrame frames ->
  (forall frame c wd', frame ∈ frames ->
     is_ok (fst (process_frame E self (threshold self confidence_threshold)
                   c frame wd')) = true) ->
  (length frames < n)%nat ->
  exists items g,
    pull E self camera_id confidence_threshold frame_skip n
      (generate_video_stream wd) = (items, Some StopIteration, g)
    /\ frame_numbers items
       = filter (fun i => i mod (frame_skip + 1) = 0) (seqZ 0 (len frames))
    /\ len items <= ceil_div (len frames) (frame_skip + 1).
Proof.
  intros Hk Hopen Hreads Hok Hn.
  destruct n as [| n]; [lia |]. rewrite pull_succ.
  destruct wd as [opens reads captures released log]. simpl in Hopen, Hreads.
  subst reads.
  unfold gen_next, generate_video_stream, VideoCapture. simpl.
  rewrite Hopen. unfold run_loop. simpl cam_reads.
  destruct (loop_emits_multiples E self camera_id confidence_threshold
              frame_skip frames Hk Hok 0
              (log_world (LogInfo "Started video stream")
                 (mkWorld opens (map ReadFrame frames) (S captures) released log))
              n ltac:(lia)) as (items & g & Hrun & Hnums).
  exists items, g. split; [exact Hrun | split; [exact Hnums |]].
  assert (len items = len (frame_numbers items)) as ->
    by (unfold len, frame_numbers; by rewrite length_map).
  rewrite Hnums. unfold len at 2. rewrite multiples_below by lia. done.
Qed.

Lemma frame_skip_emits_multiples_witness :
  exists items g,
    pull Demo.env Demo.service 0 None 1 4
      (generate_video_stream Demo.three_frames) = (items, Some StopIteration, g)
    /\ frame_numbers items = [0; 2]
    /\ len items <= 2.
Proof.
  apply (frame_skip_emits_multiples Demo.env Demo.service 0 None 1
           Demo.three_frames [Demo.frame 1; Demo.frame 2; Demo.frame 3] 4).
  - lia.
  - reflexivity.
  - reflexivity.
  - intros frame c wd' Hin.
    repeat (apply elem_of_cons in Hin as [-> | Hin]; [reflexivity |]).
    by apply elem_of_nil in Hin.
  - simpl. lia.
Defined.

(** C4.  A camera that cannot be opened: the first pull raises
    [CameraNotFoundException], whose status is 404, and the consumer never
    receives an item.  A camera that is open and whose read fails after
    some frames: the iteration ends with [StopIteration] and no exception
    reaches the consumer. *)
Theorem unopened_camera_raises_failed_read_ends
    (E : External) (self : DetectionService) (camera_id : Z)
    (confidence_threshold : option Q) (frame_skip : Z) (wd : World) :
  (cam_open wd camera_id = NotOpened ->
     snd (gen_next E self camera_id confidence_threshold frame_skip
            (generate_video_stream wd))
       = Raised (App CameraNotFoundException)
     /\ status_code CameraNotFoundException = 404
     /\ forall n,
          fst (fst (pull E self camera_id confidence_threshold frame_skip n
                      (generate_video_stream wd))) = [])
  /\ (cam_open wd camera_id = Opened ->
      frame_skip + 1 <> 0 ->
      forall frames tail n,
        cam_reads wd = map ReadFrame frames ++ ReadNone :: tail ->
        (length frames < n)%nat ->
        exists items g,
          pull E self camera_id confidence_threshold frame_skip n
            (generate_video_stream wd) = (items, Some StopIteration, g)
          /\ gen_at g = GenClosed).
Proof.
  split.
  - intros Hopen.
    assert (Hnext : snd (gen_next E self camera_id confidence_threshold
                           frame_skip (generate_video_stream wd))
                    = Raised (App CameraNotFoundException)).
    { unfold gen_next, generate_video_stream, VideoCapture. simpl.
      by rewrite Hopen. }
    split_and!; [exact Hnext | reflexivity |].
    intros [| n]; [reflexivity |]. rewrite pull_succ.
    destruct (gen_next _ _ _ _ _ _) as [g r]. simpl in Hnext. by subst r.
  - intros Hopen Hk frames tail n Hreads Hn.
    destruct n as [| n]; [lia |]. rewrite pull_succ.
    destruct wd as [opens reads captures released log]. simpl in Hopen, Hreads.
    subst reads.
    unfold gen_next, generate_video_stream, VideoCapture. simpl.
    rewrite Hopen. unfold run_loop. simpl cam_reads.
    apply loop_ends_cleanly; [done | right; eauto | lia].
Qed.

Lemma unopened_camera_raises_failed_read_ends_witness :
  snd (gen_next Demo.env Demo.service 7 None 0
         (generate_video_stream Demo.three_frames))
  = Raised (App CameraNotFoundException)
  /\ exists items g,
       pull Demo.env Demo.service 0 None 0 3
         (generate_video_stream
            (Demo.camera [ReadFrame (Demo.frame 1); ReadFrame (Demo.frame 2);
                          ReadNone; ReadFrame (Demo.frame 4)]))
       = (items, Some StopIteration, g)
       /\ gen_at g = GenClosed.
Proof.
  split.
  - apply (proj1 (unopened_camera_raises_failed_read_ends Demo.env Demo.service
                    7 None 0 Demo.three_frames)).
    reflexivity.
  - apply (proj2 (unopened_camera_raises_failed_read_ends Demo.env Demo.service
                    0 None 0
                    (Demo.camera [ReadFrame (Demo.frame 1);
                                  ReadFrame (Demo.frame 2);
                                  ReadNone; ReadFrame (Demo.frame 4)]))
             eq_refl ltac:(lia) [Demo.frame 1; Demo.frame 2]
             [ReadFrame (Demo.frame 4)] 3%nat eq_refl).
    simpl. lia.
Defined.

(** What the loop does with a frame whose processing fails: the failure
    is logged, nothing is yielded for the frame, and the loop goes on to
    the next read with the counter it had. *)
Lemma failed_frame_keeps_counter
    (E : External) (self : DetectionService) (conf : Q) (frame_skip : Z)
    (frame : ndarray) (rest : list read_outcome) (c : Z) (wd wd1 : World)
    (e : exn) :
  frame_skip + 1 <> 0 ->
  c mod (frame_skip + 1) = 0 ->
  process_frame E self conf c frame (set_reads rest wd) = (Raise e, wd1) ->
  stream_loop E self conf frame_skip (ReadFrame frame :: rest) c wd
  = stream_loop E self conf frame_skip rest c
      (log_world (LogError "Error processing frame") wd1).
Proof.
  intros Hk Hc Hp. simpl.
  destruct (Z.eqb_spec (frame_skip + 1) 0) as [| _]; [done |].
  rewrite Hc. simpl. by rewrite Hp.
Qed.

(** C2, the code at the failing input.  No skipping, three frames, the
    engine fails on the second.  The stream goes on and ends normally with
    two items, but the item made from the third frame read (its bytes are
    those of that frame) is numbered 1, not 2: the counter was not advanced
    for the frame that failed. *)
Theorem failed_frame_does_not_advance_counter :
  snd (fst (pull Demo.env Demo.service 0 None 0 4
              (generate_video_stream Demo.middle_frame_fails)))
  = Some StopIteration
  /\ map fst (fst (fst (pull Demo.env Demo.service 0 None 0 4
                          (generate_video_stream Demo.middle_frame_fails))))
     = [Demo.jpeg (Demo.frame 1); Demo.jpeg (Demo.frame 3)]
  /\ frame_numbers (fst (fst (pull Demo.env Demo.service 0 None 0 4
                                (generate_video_stream Demo.middle_frame_fails))))
     = [0; 1].
Proof. split_and!; reflexivity. Qed.


(** * Further properties *)

(** ** Loading the model *)

(** Whatever goes wrong inside [load_model], the caller sees
    [ModelLoadException], whose status is 500. *)
Theorem load_model_raises_only_model_load
    (E : External) (st st' : LoadStore) (e : exn) :
  load_model E st = (Raise e, st') ->
  e = App ModelLoadException /\ status_code ModelLoadException = 500.
Proof.
  unfold load_model. intros H. split; [| reflexivity].
  destruct (is_loaded (ld_self st)).
  - unfold emit_load, modify in H. done.
  - unfold try_except in H.
    destruct (load_model_body E st) as [[[] | e0] st1]; [done |].
    unfold bind, emit_load, modify, raise in H. simpl in H. congruence.
Qed.

Lemma load_model_raises_only_model_load_witness :
  load_model DemoMore.no_weights DemoMore.fresh
    = (Raise (App ModelLoadException), DemoMore.no_weights_store)
  /\ status_code ModelLoadException = 500.
Proof.
  assert (Hrun : load_model DemoMore.no_weights DemoMore.fresh
                 = (Raise (App ModelLoadException), DemoMore.no_weights_store))
    by (vm_compute; reflexivity).
  split; [exact Hrun |].
  apply (proj2 (load_model_raises_only_model_load DemoMore.no_weights
                  DemoMore.fresh DemoMore.no_weights_store _ Hrun)).
Defined.

(** The settings [load_model] ends with: the CPU fallback when CUDA was
    asked for and is not there, the settings it was given otherwise. *)
Lemma load_model_body_ok E st st' :
  load_model_body E st = (Ok tt, st') ->
  exists m0 m,
    path_exists E (model_path (ld_settings st)) = true
    /\ yolo_new E (model_path (ld_settings st)) = inr m0
    /\ yolo_to E m0 (device (ld_settings st')) = inr m
    /\ ld_settings st'
       = (if String.eqb (device (ld_settings st)) "cuda"
             && negb (cuda_is_available E)
          then cpu_fallback (ld_settings st) else ld_settings st)
    /\ ld_self st'
       = {| _initialized := true; model := Some m;
            _settings := Some (ld_settings st') |}.
Proof.
  unfold load_model_body, bind, emit_load, set_self, set_settings, gets,
    modify, lift, ret, raise. simpl. intros H.
  destruct (path_exists E _) eqn:Hpath; simpl in H; [| done].
  destruct (yolo_new E _) as [| m0] eqn:Hnew; simpl in H; [done |].
  exists m0.
  destruct (String.eqb (device (ld_settings st)) "cuda") eqn:Hdev; simpl in H.
  - destruct (cuda_is_available E) eqn:Hcuda; simpl in H.
    + destruct (cuda_device_info E); simpl in H; [done |].
      destruct (yolo_to E m0 _) as [| m] eqn:Hto; simpl in H; [done |].
      exists m.
      destruct (half_precision (ld_settings st) && _); simpl in H;
        destruct (yolo_predict E m _ _); simpl in H; try done;
        injection H as <-; simpl; by split_and!.
    + destruct (yolo_to E m0 _) as [| m] eqn:Hto; simpl in H; [done |].
      exists m.
      destruct (yolo_predict E m _ _); simpl in H; [done |].
      injection H as <-. simpl. by split_and!.
  - destruct (yolo_to E m0 _) as [| m] eqn:Hto; simpl in H; [done |].
    exists m.
    destruct (half_precision (ld_settings st) && _); simpl in H;
      destruct (yolo_predict E m _ _); simpl in H; try done;
      injection H as <-; simpl; by split_and!.
Qed.

(** A load that succeeds on a wrapper not yet loaded: the model object is
    the one [YOLO(path)] built, moved to the device the settings end with;
    the wrapper keeps those settings; and when CUDA was asked for and is
    not available, the settings object itself now says [cpu] without half
    precision, and is unchanged otherwise. *)
Theorem load_model_success_settings
    (E : External) (st st' : LoadStore) :
  is_loaded (ld_self st) = false ->
  load_model E st = (Ok tt, st') ->
  _settings (ld_self st') = Some (ld_settings st')
  /\ ld_settings st'
     = (if String.eqb (device (ld_settings st)) "cuda"
           && negb (cuda_is_available E)
        then cpu_fallback (ld_settings st) else ld_settings st)
  /\ exists m0 m,
       yolo_new E (model_path (ld_settings st)) = inr m0
       /\ yolo_to E m0 (device (ld_settings st')) = inr m
       /\ model (ld_self st') = Some m.
Proof.
  intros Hnot Hrun. unfold load_model in Hrun. rewrite Hnot in Hrun.
  unfold try_except in Hrun.
  destruct (load_model_body E st) as [[[] | e] st1] eqn:Hbody.
  - injection Hrun as <-.
    apply load_model_body_ok in Hbody
      as (m0 & m & _ & Hnew & Hto & Hset & Hself).
    rewrite Hself. simpl. split_and!; [done | done |]. eauto.
  - unfold bind, emit_load, modify, raise in Hrun. simpl in Hrun. done.
Qed.

Lemma load_model_success_settings_witness :
  load_model Demo.env DemoMore.fresh = (Ok tt, DemoMore.loaded_store)
  /\ _settings (ld_self DemoMore.loaded_store)
     = Some (ld_settings DemoMore.loaded_store)
  /\ ld_settings DemoMore.loaded_store = cpu_fallback default_settings.
Proof.
  assert (Hrun : load_model Demo.env DemoMore.fresh
                 = (Ok tt, DemoMore.loaded_store))
    by (vm_compute; reflexivity).
  split; [exact Hrun |].
  destruct (load_model_success_settings Demo.env DemoMore.fresh
              DemoMore.loaded_store eq_refl Hrun) as (Hs & Hset & _).
  split; [exact Hs | exact Hset].
Defined.

(** With the weights file missing on a wrapper not yet loaded, the load
    fails with the wrapper and the settings left as they were, and the
    engine's constructor is never called. *)
Theorem load_model_missing_file (E : External) (st : LoadStore) :
  is_loaded (ld_self st) = false ->
  path_exists E (model_path (ld_settings st)) = false ->
  load_model E st
  = (Raise (App ModelLoadException),
     mkLoadStore (ld_self st) (ld_settings st)
       (ld_log st ++ [LogInfo "Loading YOLO model";
                      LogError "Failed to load model"])).
Proof.
  intros Hnot Hpath. unfold load_model. rewrite Hnot.
  unfold try_except, load_model_body, bind, emit_load, gets, modify, raise, ret.
  simpl. rewrite Hpath. simpl. by rewrite <- app_assoc.
Qed.

Lemma load_model_missing_file_witness :
  load_model DemoMore.no_weights DemoMore.fresh
  = (Raise (App ModelLoadException),
     mkLoadStore new_wrapper default_settings
       ([] ++ [LogInfo "Loading YOLO model"; LogError "Failed to load model"])).
Proof.
  apply (load_model_missing_file DemoMore.no_weights DemoMore.fresh);
    reflexivity.
Defined.

(** Membership in a list written out. *)
Local Ltac not_listed :=
  let Hin := fresh "Hin" in
  simpl; intros Hin;
  repeat (apply elem_of_cons in Hin as [Hin | Hin]; [done |]);
  by apply elem_of_nil in Hin.

Local Ltac listed := simpl; repeat first [by left | right].

Local Ltac stopped_early H Hinit :=
  simplify_eq; simpl; eexists;
  (split; [by rewrite <- ?app_assoc |]);
  right; rewrite ?Hinit; (split; [done | not_listed]).

Local Ltac stopped_at_warm_up H :=
  simplify_eq; simpl; eexists;
  (split; [by rewrite <- ?app_assoc |]);
  left; (split_and!; [done | by eexists | listed]).

(** Where a failing run of the [try] block stops: before the warm-up with
    [_initialized] still false, or at the warm-up with the wrapper already
    marked. *)
Lemma load_model_body_raise E st st' e :
  _initialized (ld_self st) = false ->
  load_model_body E st = (Raise e, st') ->
  exists added,
    ld_log st' = ld_log st ++ added
    /\ ((is_loaded (ld_self st') = true /\ is_Some (_settings (ld_self st'))
         /\ CallPredict ∈ added)
        \/ (_initialized (ld_self st') = false /\ CallPredict ∉ added)).
Proof.
  intros Hinit.
  unfold load_model_body, bind, emit_load, set_self, set_settings, gets,
    modify, lift, ret, raise, is_loaded. simpl. intros H.
  destruct (path_exists E _); simpl in H; [| stopped_early H Hinit].
  destruct (yolo_new E _) as [| m0]; simpl in H; [stopped_early H Hinit |].
  destruct (String.eqb (device (ld_settings st)) "cuda"); simpl in H.
  - destruct (cuda_is_available E); simpl in H.
    + destruct (cuda_device_info E); simpl in H; [stopped_early H Hinit |].
      destruct (yolo_to E m0 _) as [| m]; simpl in H; [stopped_early H Hinit |].
      destruct (half_precision (ld_settings st) && _); simpl in H;
        destruct (yolo_predict E m _ _); simpl in H; try done;
        stopped_at_warm_up H.
    + destruct (yolo_to E m0 _) as [| m]; simpl in H; [stopped_early H Hinit |].
      destruct (yolo_predict E m _ _); simpl in H; [| done].
      stopped_at_warm_up H.
  - destruct (yolo_to E m0 _) as [| m]; simpl in H; [stopped_early H Hinit |].
    destruct (half_precision (ld_settings st) && _); simpl in H;
      destruct (yolo_predict E m _ _); simpl in H; try done;
      stopped_at_warm_up H.
Qed.

(** A load that fails on a wrapper not yet initialized leaves it reporting
    [is_loaded] exactly when the failure came at the warm-up inference:
    [_initialized] is set before the warm-up runs. *)
Theorem failed_load_is_loaded_iff_warm_up
    (E : External) (st st' : LoadStore) (e : exn) :
  _initialized (ld_self st) = false ->
  CallPredict ∉ ld_log st ->
  load_model E st = (Raise e, st') ->
  (is_loaded (ld_self st') = true <-> CallPredict ∈ ld_log st').
Proof.
  intros Hinit Hfresh Hrun. unfold load_model in Hrun.
  assert (Hnot : is_loaded (ld_self st) = false)
    by (unfold is_loaded; by rewrite Hinit).
  rewrite Hnot in Hrun. unfold try_except in Hrun.
  destruct (load_model_body E st) as [[[] | e0] st1] eqn:Hbody; [done |].
  unfold bind, emit_load, modify, raise in Hrun. simpl in Hrun.
  injection Hrun as _ <-. simpl.
  apply load_model_body_raise in Hbody as (added & -> & Hcase); [| done].
  rewrite !elem_of_app, list_elem_of_singleton.
  destruct Hcase as [(Hl & _ & Hin) | [Hl Hout]].
  - rewrite Hl. split; [auto | done].
  - unfold is_loaded. rewrite Hl. simpl.
    split; [done |]. intros [[Hin | Hin] | Hin]; [by destruct Hfresh | done | done].
Qed.

Lemma failed_load_is_loaded_iff_warm_up_witness :
  load_model DemoMore.failing_engine DemoMore.fresh
    = (Raise (App ModelLoadException), DemoMore.warm_up_failed_store)
  /\ is_loaded (ld_self DemoMore.warm_up_failed_store) = true.
Proof.
  assert (Hrun : load_model DemoMore.failing_engine DemoMore.fresh
                 = (Raise (App ModelLoadException),
                    DemoMore.warm_up_failed_store))
    by (vm_compute; reflexivity).
  split; [exact Hrun |].
  apply (failed_load_is_loaded_iff_warm_up DemoMore.failing_engine
           DemoMore.fresh DemoMore.warm_up_failed_store _ eq_refl
           ltac:(apply not_elem_of_nil) Hrun).
  vm_compute. repeat constructor.
Defined.


(** ** The wrapper's invariant, startup and readiness *)

Lemma coherent_new_wrapper : coherent new_wrapper.
Proof. intros H. done. Qed.

Lemma coherent_is_loaded w :
  coherent w -> is_loaded w = _initialized w.
Proof.
  unfold coherent, is_loaded. destruct (_initialized w); [| done].
  intros H. destruct (H eq_refl) as [[m ->] _]. done.
Qed.

(** [load_model] keeps the wrapper coherent, however it ends; on a
    coherent wrapper neither [predict] nor [model_info] can fail for want
    of settings. *)
Theorem load_model_keeps_wrapper_coherent
    (E : External) (st st' : LoadStore) (r : res unit) :
  coherent (ld_self st) ->
  load_model E st = (r, st') ->
  coherent (ld_self st')
  /\ (forall E' source conf,
        predict E' (ld_self st') source conf <> Raise AttributeError)
  /\ model_info (ld_self st') <> Raise AttributeError.
Proof.
  intros Hco Hrun.
  assert (Hco' : coherent (ld_self st')).
  { unfold load_model in Hrun.
    rewrite (coherent_is_loaded _ Hco) in Hrun.
    destruct (_initialized (ld_self st)) eqn:Hinit.
    - unfold emit_load, modify in Hrun. by injection Hrun as _ <-.
    - unfold try_except in Hrun.
      destruct (load_model_body E st) as [[[] | e] st1] eqn:Hbody.
      + injection Hrun as _ <-.
        apply load_model_body_ok in Hbody as (m0 & m & _ & _ & _ & _ & ->).
        intros _. simpl. split; by eexists.
      + unfold bind, emit_load, modify, raise in Hrun. simpl in Hrun.
        injection Hrun as _ <-. simpl.
        apply load_model_body_raise in Hbody as (added & _ & Hcase); [| done].
        destruct Hcase as [(Hl & Hs & _) | [Hl _]]; intros Hi.
        * split; [| done]. unfold is_loaded in Hl.
          apply andb_true_iff in Hl as [_ Hm]. apply bool_decide_eq_true in Hm.
          destruct (model (ld_self st1)); [by eexists | done].
        * congruence. }
  split_and!; [done | |].
  - intros E' source conf. unfold predict.
    destruct (_initialized (ld_self st')) eqn:Hi; simpl; [| done].
    destruct (Hco' Hi) as [[m ->] [s ->]].
    intros H. by apply lift_ext_foreign in H as [msg H].
  - unfold model_info. rewrite (coherent_is_loaded _ Hco').
    destruct (_initialized (ld_self st')) eqn:Hi; simpl; [| done].
    by destruct (Hco' Hi) as [_ [s ->]].
Qed.

Lemma load_model_keeps_wrapper_coherent_witness :
  coherent (ld_self DemoMore.warm_up_failed_store).
Proof.
  assert (Hrun : load_model DemoMore.failing_engine DemoMore.fresh
                 = (Raise (App ModelLoadException),
                    DemoMore.warm_up_failed_store))
    by (vm_compute; reflexivity).
  apply (load_model_keeps_wrapper_coherent DemoMore.failing_engine
           DemoMore.fresh DemoMore.warm_up_failed_store _
           ltac:(intros H; discriminate H) Hrun).
Defined.


Lemma get_model_instance slot :
  get_model slot = Instance (the_instance (get_model slot)).
Proof. by destruct slot. Qed.

Lemma get_model_keeps w : get_model (Instance w) = Instance w.
Proof. reflexivity. Qed.

(** After a startup that succeeded, every service built later, with
    whatever settings, is handed the loaded wrapper and building it does
    not touch the wrapper; a prediction through it goes to the engine
    with the model that was loaded, so it cannot fail with
    [ModelLoadException]. *)
Theorem service_after_startup_reaches_engine
    (E : External) (s s' : Settings) (slot slot' : instance_slot)
    (log log' : list event) :
  coherent (the_instance (get_model slot)) ->
  lifespan_startup E s slot log = (Ok tt, slot', s', log') ->
  exists w m,
    slot' = Instance w /\ is_loaded w = true /\ model w = Some m
    /\ forall s2 E' source conf,
         new_DetectionService s2 slot' = (mkService s2 w, slot')
         /\ predict E' w source (Some conf)
            = lift_ext (yolo_predict E' m source conf).
Proof.
  intros Hco Hrun. unfold lifespan_startup in Hrun.
  destruct (load_model E _) as [[[] | e] st] eqn:Hload; [| done].
  injection Hrun as <- <- <-.
  pose proof (load_model_loaded _ _ _ Hload) as Hl.
  destruct (load_model_keeps_wrapper_coherent E
              (mkLoadStore (the_instance (get_model slot)) s
                 (log ++ [LogInfo "Loading YOLO model..."]))
              st (Ok tt) Hco Hload) as (Hco' & _ & _).
  rewrite (coherent_is_loaded _ Hco') in Hl.
  destruct (Hco' Hl) as [[m Hm] [s0 Hs]].
  exists (ld_self st), m. split_and!; [done | | done |].
  - by rewrite (coherent_is_loaded _ Hco').
  - intros s2 E' source conf. split; [reflexivity |].
    unfold predict. by rewrite Hl, Hm, Hs.
Qed.

Lemma service_after_startup_reaches_engine_witness :
  exists w m,
    Instance (ld_self DemoMore.loaded_store) = Instance w
    /\ is_loaded w = true /\ model w = Some m.
Proof.
  assert (Hrun : lifespan_startup Demo.env default_settings NoInstance []
                 = (Ok tt, Instance (ld_self DemoMore.loaded_store),
                    ld_settings DemoMore.loaded_store,
                    ld_log (snd (load_model Demo.env
                                   (mkLoadStore new_wrapper default_settings
                                      ([] ++ [LogInfo "Loading YOLO model..."]))))
                    ++ [LogInfo "API is ready to accept requests!"]))
    by (vm_compute; reflexivity).
  destruct (service_after_startup_reaches_engine Demo.env default_settings
              _ NoInstance _ [] _ ltac:(intros H; discriminate H) Hrun)
    as (w & m & Hslot & Hl & Hm & _).
  by exists w, m.
Defined.

(** The readiness route answers 503 exactly when the wrapper is not
    loaded; on a coherent loaded wrapper it answers ["ready"] with the
    device, path, threshold and precision of the stored settings. *)
Theorem readiness_503_iff_not_loaded (slot : instance_slot) :
  coherent (the_instance (get_model slot)) ->
  (fst (readiness_check slot) = Ok (HTTPException 503)
   <-> is_loaded (the_instance (get_model slot)) = false)
  /\ (is_loaded (the_instance (get_model slot)) = true ->
      exists s,
        _settings (the_instance (get_model slot)) = Some s
        /\ fst (readiness_check slot)
           = Ok (Returned ("ready",
                           Some (mkModelInfo (device s) (model_path s)
                                   (confidence_threshold s)
                                   (half_precision s))))).
Proof.
  intros Hco. unfold readiness_check.
  set (w := the_instance (get_model slot)) in *.
  pose proof (coherent_is_loaded _ Hco) as Hl.
  destruct (is_loaded w) eqn:Hw; simpl.
  - symmetry in Hl. destruct (Hco Hl) as [_ [s Hs]].
    unfold model_info, wrapper_device. rewrite Hw, Hs. simpl.
    split; [split; done |]. intros _. by exists s.
  - split; [split; done | done].
Qed.

Lemma readiness_503_iff_not_loaded_witness :
  fst (readiness_check NoInstance) = Ok (HTTPException 503)
  /\ fst (readiness_check (Instance Demo.loaded))
     = Ok (Returned ("ready",
                     Some (mkModelInfo "cpu" "best.pt" (4 # 10) false))).
Proof.
  split.
  - apply (proj1 (readiness_503_iff_not_loaded NoInstance
                    ltac:(intros H; discriminate H))).
    reflexivity.
  - destruct (proj2 (readiness_503_iff_not_loaded (Instance Demo.loaded)
                       ltac:(intros _; split; by eexists)) eq_refl)
      as (s & Hs & Hr).
    injection Hs as <-. exact Hr.
Defined.

(** ** More on the result mapper *)

Lemma row_ok_spec result row :
  row_ok result row = true ->
  valid_confidence (conf row) = true
  /\ class_name_of result (int_of_float (cls row))
     = Ok (label_of result (int_of_float (cls row))).
Proof.
  unfold row_ok, class_name_of, label_of, table_label.
  intros [Hc Hn]%andb_true_iff. split; [done |].
  destruct (names result) as [table |]; [| done].
  apply bool_decide_eq_true in Hn as [name ->]. done.
Qed.

Lemma process_row_ok result row detection :
  process_row result row = Ok detection -> row_ok result row = true.
Proof.
  unfold process_row, row_ok, class_name_of, new_Detection.
  fold (valid_confidence (conf row)).
  destruct (xyxy row) as [[[a b] c] d].
  destruct (names result) as [table |].
  - destruct (table !! _) as [name |] eqn:Hname; [| done].
    destruct (valid_confidence (conf row)); [| done].
    intros _. simpl. first [done | apply bool_decide_eq_true; by eexists].
  - by destruct (valid_confidence (conf row)).
Qed.

Lemma process_rows_ok result rows acc detections :
  process_rows result rows acc = Ok detections ->
  forallb (row_ok result) rows = true.
Proof.
  revert acc. induction rows as [| row rest IH]; intros acc; simpl; [done |].
  destruct (process_row result row) as [det | e] eqn:Hrow; [| done].
  intros H. apply process_row_ok in Hrow. rewrite Hrow. simpl. by eapply IH.
Qed.

(** The mapper gets through a result exactly when every row has a
    confidence within bounds and, where the result has a table of names,
    a class id that the table knows. *)
Theorem mapping_succeeds_iff_rows_ok
    (result : RawResult) (rest : list RawResult) (rows : list BoxRow) :
  boxes result = Some rows ->
  (is_ok (_process_results (result :: rest)) = true
   <-> forallb (row_ok result) rows = true).
Proof.
  intros Hb. split.
  - unfold _process_results. rewrite Hb.
    destruct (0 <? len rows) eqn:Hlen.
    + destruct (process_rows result rows []) as [dets | e] eqn:Hrows; [| done].
      intros _. by eapply process_rows_ok.
    + destruct rows; [done |]. unfold len in Hlen. simpl in Hlen.
      apply Z.ltb_ge in Hlen. lia.
  - intros Hall.
    destruct (_process_results_mapped result rest (label_of result) rows Hb)
      as [size ->]; [| done].
    apply Forall_forall. intros row Hin. apply row_ok_spec.
    rewrite forallb_forall in Hall. apply Hall. by apply list_elem_of_In.
Qed.

Lemma mapping_succeeds_iff_rows_ok_witness :
  is_ok (_process_results
           [mkRaw (Some (2, 2)) (Some [Demo.gun_row; Demo.gun_row])
                  (Some Demo.gun_names) (inr (Demo.frame 1))]) = true.
Proof.
  apply (proj2 (mapping_succeeds_iff_rows_ok
                  (mkRaw (Some (2, 2)) (Some [Demo.gun_row; Demo.gun_row])
                         (Some Demo.gun_names) (inr (Demo.frame 1)))
                  [] [Demo.gun_row; Demo.gun_row] eq_refl)).
  vm_compute. reflexivity.
Defined.

(** Whenever the mapper returns, it returns one detection per row of the
    first result, in the order of the rows, each with the row's box,
    confidence and truncated class id, under the label of that id; the
    size is (width, height) taken from [orig_shape], or (0, 0) without
    it; a result without boxes gives no detection. *)
Theorem mapping_result_is_rowwise
    (result : RawResult) (rest : list RawResult)
    (detections : list Detection) (size : Z * Z) :
  _process_results (result :: rest) = Ok (detections, size) ->
  size = size_of result
  /\ detections
     = map (detection_of (label_of result)) (default [] (boxes result)).
Proof.
  intros Hrun.
  destruct (boxes result) as [rows |] eqn:Hb.
  - assert (Hall : forallb (row_ok result) rows = true).
    { apply (mapping_succeeds_iff_rows_ok result rest rows Hb).
      by rewrite Hrun. }
    destruct (_process_results_mapped result rest (label_of result) rows Hb)
      as [size' Hmapped].
    { apply Forall_forall. intros row Hin. apply row_ok_spec.
      rewrite forallb_forall in Hall. apply Hall. by apply list_elem_of_In. }
    rewrite Hmapped in Hrun. injection Hrun as <- <-. simpl. split; [| done].
    unfold _process_results in Hmapped. rewrite Hb in Hmapped.
    unfold size_of. repeat case_match; by simplify_eq.
  - unfold _process_results in Hrun. rewrite Hb in Hrun.
    unfold size_of. simpl. repeat case_match; by simplify_eq.
Qed.

Lemma mapping_result_is_rowwise_witness :
  (3, 2) = size_of (mkRaw (Some (2, 3)) (Some [Demo.gun_row])
                          (Some Demo.gun_names) (inr (Demo.frame 1)))
  /\ [mkDetection "gun" (9 # 10) (mkBoundingBox (10 # 1) (20 # 1) (30 # 1) (40 # 1)) 0]
     = map (detection_of
              (label_of (mkRaw (Some (2, 3)) (Some [Demo.gun_row])
                               (Some Demo.gun_names) (inr (Demo.frame 1)))))
           (default [] (boxes (mkRaw (Some (2, 3)) (Some [Demo.gun_row])
                                     (Some Demo.gun_names) (inr (Demo.frame 1))))).
Proof.
  apply (mapping_result_is_rowwise
           (mkRaw (Some (2, 3)) (Some [Demo.gun_row]) (Some Demo.gun_names)
                  (inr (Demo.frame 1))) []).
  vm_compute. reflexivity.
Defined.

(** ** More on the image operations *)

Lemma image_handlers_taxonomy {A} msg e tr (r : res A) tr' :
  image_handlers msg e tr = (r, tr') ->
  r = Raise (App InvalidImageException)
  \/ r = Raise (App ImageTooLargeException)
  \/ r = Raise (App DetectionException).
Proof.
  unfold image_handlers, bind, log_event, modify, raise.
  intros H. repeat case_match; simplify_eq; auto.
Qed.

(** The two image operations raise nothing but [InvalidImageException],
    [ImageTooLargeException] and [DetectionException], that is statuses
    400, 413 and 500. *)
Theorem image_operations_error_taxonomy
    (E : External) (self : DetectionService) (image_data : list Byte.byte)
    (confidence_threshold : option Q) (save_result : bool)
    (tr tr' : list event) (e : exn) :
  (detect_from_image_file E self image_data confidence_threshold save_result tr
     = (Raise e, tr')
   \/ fst (detect_and_annotate_image E self image_data confidence_threshold tr)
      = Raise e) ->
  exists a,
    e = App a
    /\ (a = InvalidImageException \/ a = ImageTooLargeException
        \/ a = DetectionException)
    /\ (status_code a = 400 \/ status_code a = 413 \/ status_code a = 500).
Proof.
  assert (Hkinds : forall a,
            Raise (A := unit) e = Raise (App a) ->
            (a = InvalidImageException \/ a = ImageTooLargeException
             \/ a = DetectionException) ->
            exists a,
              e = App a
              /\ (a = InvalidImageException \/ a = ImageTooLargeException
                  \/ a = DetectionException)
              /\ (status_code a = 400 \/ status_code a = 413
                  \/ status_code a = 500)).
  { intros a [= ->] Ha. exists a. split; [done |]. split; [done |].
    destruct Ha as [-> | [-> | ->]]; simpl; auto. }
  assert (Hgen : forall A (m : M (list event) A) msg r tr1,
            try_except m (image_handlers msg) tr = (r, tr1) ->
            r = Raise e ->
            r = Raise (App InvalidImageException)
            \/ r = Raise (App ImageTooLargeException)
            \/ r = Raise (App DetectionException)).
  { intros A m msg r tr1. unfold try_except.
    destruct (m tr) as [[a | e0] tr2].
    - intros [= <- _]. done.
    - intros H _. by eapply image_handlers_taxonomy. }
  intros [H | H].
  - pose proof (Hgen _ _ _ _ _ H eq_refl) as [Hr | [Hr | Hr]];
      injection Hr as ->; eapply Hkinds; eauto.
  - destruct (detect_and_annotate_image E self image_data confidence_threshold tr)
      as [r tr1] eqn:Hrun. simpl in H. subst r.
    pose proof (Hgen _ _ _ _ _ Hrun eq_refl) as [Hr | [Hr | Hr]];
      injection Hr as ->; eapply Hkinds; eauto.
Qed.

Lemma image_operations_error_taxonomy_witness :
  exists a,
    App InvalidImageException = App a
    /\ (a = InvalidImageException \/ a = ImageTooLargeException
        \/ a = DetectionException).
Proof.
  destruct (image_operations_error_taxonomy Demo.env Demo.small_service []
              None false [] [CallDecode; LogError "Failed to load image"]
              (App InvalidImageException)
              ltac:(left; vm_compute; reflexivity))
    as (a & Ha & Hkind & _).
  exists a. split; [exact Ha | exact Hkind].
Defined.

Lemma predict_not_loaded E w source conf :
  is_loaded w = false ->
  predict E w source conf = Raise (App ModelLoadException).
Proof.
  unfold is_loaded, predict. destruct (_initialized w); simpl; [| done].
  destruct (model w); [| done]. intros H.
  apply bool_decide_eq_false in H. by destruct H.
Qed.

(** With a wrapper that is not loaded, an upload that passes the size test
    and decodes is answered with [DetectionException] (500) by both image
    operations: the wrapper's [ModelLoadException] is caught and wrapped. *)
Theorem unloaded_model_gives_detection_error
    (E : External) (self : DetectionService) (image_data : list Byte.byte)
    (confidence_threshold : option Q) (save_result : bool)
    (tr tr1 : list event) (image_np : ndarray) :
  is_loaded (svc_model self) = false ->
  len image_data <= max_image_size (settings self) ->
  load_image E image_data tr = (Ok image_np, tr1) ->
  detect_from_image_file E self image_data confidence_threshold save_result tr
    = (Raise (App DetectionException),
       tr1 ++ [CallPredict] ++ [LogError "Detection failed"])
  /\ detect_and_annotate_image E self image_data confidence_threshold tr
     = (Raise (App DetectionException),
        tr1 ++ [CallPredict] ++ [LogError "Detection with annotation failed"])
  /\ status_code DetectionException = 500.
Proof.
  intros Hnot Hfit Hload.
  assert (Hchecked : checked_image E self image_data tr = (Ok image_np, tr1)).
  { rewrite checked_image_within by done. unfold try_except. by rewrite Hload. }
  split_and!; [| | reflexivity].
  - unfold detect_from_image_file, try_except, bind at 1. rewrite Hchecked.
    unfold bind, log_event, modify, lift. simpl.
    rewrite predict_not_loaded by done. simpl.
    unfold bind, log_event, modify, raise. simpl. by rewrite <- app_assoc.
  - unfold detect_and_annotate_image, try_except, bind at 1. rewrite Hchecked.
    unfold bind, log_event, modify, lift. simpl.
    rewrite predict_not_loaded by done. simpl.
    unfold bind, log_event, modify, raise. simpl. by rewrite <- app_assoc.
Qed.

Lemma unloaded_model_gives_detection_error_witness :
  fst (detect_from_image_file Demo.env DemoMore.unloaded_service [Byte.x01]
         None false [])
  = Raise (App DetectionException).
Proof.
  rewrite (proj1 (unloaded_model_gives_detection_error Demo.env
                    DemoMore.unloaded_service [Byte.x01] None false []
                    [CallDecode] (Demo.frame 1) eq_refl
                    ltac:(vm_compute; discriminate) eq_refl)).
  reflexivity.
Defined.



(** The channel test comes first: a two-dimensional array that is four
    columns wide is sent through the RGBA conversion, and only the other
    two-dimensional arrays through the grey-scale one. *)
Theorem four_wide_grey_image_takes_rgba_branch
    (E : External) (image_data : list Byte.byte) (tr : list event)
    (image_np : ndarray) (height width : Z) :
  image_open E image_data = inr image_np ->
  shape image_np = [height; width] ->
  load_image E image_data tr
  = (lift_ext (cvtColor E image_np
                 (if width =? 4 then COLOR_RGBA2RGB else COLOR_GRAY2RGB)),
     tr ++ [CallDecode]).
Proof.
  intros Hopen Hshape.
  unfold load_image, bind, log_event, modify, lift. simpl.
  rewrite Hopen. simpl. rewrite Hshape. simpl.
  by destruct (width =? 4).
Qed.

Lemma four_wide_grey_image_takes_rgba_branch_witness :
  load_image DemoMore.grey_env [Byte.x01] []
  = (Raise (ForeignError "Invalid number of channels in input image"),
     [] ++ [CallDecode]).
Proof.
  apply (four_wide_grey_image_takes_rgba_branch DemoMore.grey_env [Byte.x01] []
           (mkArray [3; 4] (fun _ => 0)) 3 4 eq_refl eq_refl).
Defined.

(** ** The single-frame camera operation *)

Lemma camera_handlers_raise {A} e wd (x : res A) wd' :
  match e with
  | App CameraNotFoundException => raise e
  | App VideoStreamException => raise e
  | _ => modify (log_world (LogError "Camera detection failed")) ;;
         raise (App DetectionException)
  end wd = (x, wd') ->
  same_camera wd wd'
  /\ exists a, x = Raise (App a)
       /\ (a = CameraNotFoundException -> e = App CameraNotFoundException)
       /\ (a = CameraNotFoundException \/ a = VideoStreamException
           \/ a = DetectionException).
Proof.
  unfold bind, modify, raise. intros H.
  repeat case_match; simplify_eq;
    (split; [by repeat split |]); eexists; (split; [reflexivity |]);
    split; auto; done.
Qed.

(** How [detect_from_camera] treats the device.  When the camera does not
    open, a capture object was built and is never released, and the
    operation raises [CameraNotFoundException].  When it opens and the
    read returns, the camera is released once, before any inference,
    whatever follows.  When the read itself raises, the release is skipped
    and the operation raises [DetectionException]. *)
Theorem detect_from_camera_release
    (E : External) (self : DetectionService) (camera_id : Z)
    (confidence_threshold : option Q) (wd wd' : World)
    (r : res (ndarray * VideoFrameDetection.t)) :
  detect_from_camera E self camera_id confidence_threshold wd = (r, wd') ->
  (cam_open wd camera_id = NotOpened ->
     r = Raise (App CameraNotFoundException)
     /\ cam_captures wd' = S (cam_captures wd)
     /\ cam_released wd' = cam_released wd)
  /\ (cam_open wd camera_id = Opened ->
      (forall msg rest, cam_reads wd <> ReadRaises msg :: rest) ->
      cam_released wd' = S (cam_released wd))
  /\ (cam_open wd camera_id = Opened ->
      forall msg rest, cam_reads wd = ReadRaises msg :: rest ->
      r = Raise (App DetectionException)
      /\ cam_released wd' = cam_released wd).
Proof.
  unfold detect_from_camera, try_except, bind at 1, VideoCapture. intros H.
  destruct (cam_open wd camera_id) eqn:Hopen; split_and!; try done.
  - (* opened, the read returns *)
    intros _ Hreads. unfold bind, cap_read, ret, modify, raise in H.
    simpl in H.
    destruct (cam_reads wd) as [| [frame | | msg] rest] eqn:Hr; simpl in H.
    + by injection H as _ <-.
    + destruct (detect_frame E self _ 0 frame _) as [[out | e] wd1] eqn:Hd;
        apply detect_frame_spec in Hd as [-> _].
      * by injection H as _ <-.
      * apply camera_handlers_raise in H as [(_ & _ & _ & Hrel) _].
        by rewrite Hrel.
    + by injection H as _ <-.
    + by destruct (Hreads msg rest).
  - (* opened, the read raises *)
    intros _ msg rest Hreads. unfold bind, cap_read, ret, modify in H.
    simpl in H. rewrite Hreads in H. simpl in H.
    unfold bind, modify, raise in H. simpl in H. by injection H as <- <-.
  - (* not opened *)
    intros _. unfold bind, ret, raise in H. simpl in H.
    by injection H as <- <-.
Qed.

Lemma detect_from_camera_release_witness :
  fst (detect_from_camera Demo.env Demo.service 0 None Demo.no_camera)
  = Raise (App CameraNotFoundException)
  /\ cam_released (snd (detect_from_camera Demo.env Demo.service 0 None
                          Demo.three_frames)) = 1%nat.
Proof.
  split.
  - apply (proj1 (detect_from_camera_release Demo.env Demo.service 0 None
                    Demo.no_camera _ _ eq_refl)).
    reflexivity.
  - apply (proj1 (proj2 (detect_from_camera_release Demo.env Demo.service 0
                           None Demo.three_frames _ _ eq_refl)));
      [reflexivity | intros msg rest; discriminate].
Defined.




(** ** The streaming generator under any script *)

Section StreamOrder.

Variable E : External.
Variable self : DetectionService.
Variable camera_id : Z.
Variable confidence_threshold : option Q.
Variable frame_skip : Z.

Local Abbreviation conf := (threshold self confidence_threshold).
Local Abbreviation next :=
  (gen_next E self camera_id confidence_threshold frame_skip).
Local Abbreviation pulled :=
  (pull E self camera_id confidence_threshold frame_skip).

(** The counter a run of the loop yields with is not below the one it was
    entered with, and is a multiple of [frame_skip + 1]; every yield takes
    at least one read off the script. *)
Lemma stream_loop_yield reads c wd out wd' :
  cam_reads wd = reads ->
  stream_loop E self conf frame_skip reads c wd = (out, wd') ->
  (length (cam_reads wd') <= length reads)%nat
  /\ forall item n, out = Ok (LoopYield item n) ->
       c <= n /\ n mod (frame_skip + 1) = 0
       /\ VideoFrameDetection.frame_number (snd item) = n
       /\ (length (cam_reads wd') < length reads)%nat.
Proof.
  revert c wd. induction reads as [| r rest IH]; intros c wd Hreads; simpl.
  - intros [= <- <-]. simpl. rewrite Hreads. by split.
  - destruct r as [frame | | msg];
      try (intros [= <- <-]; simpl; split; [lia | done]).
    destruct (frame_skip + 1 =? 0);
      [intros [= <- <-]; simpl; split; [lia | done] |].
    destruct (Z.eqb_spec (c mod (frame_skip + 1)) 0) as [Hc | Hc]; simpl negb;
      cbv iota.
    + destruct (process_frame E self conf c frame (set_reads rest wd))
        as [[item | e] wd1] eqn:Hp;
        apply process_frame_spec in Hp as [(_ & Hr & _ & _) Hitem];
        simpl in Hr.
      * intros [= <- <-]. rewrite Hr. split; [lia |].
        intros item' n [= <- <-]. destruct (Hitem item eq_refl) as [Hnum _].
        split_and!; [lia | done | done | lia].
      * intros H. apply IH in H as [Hlen Hy]; [| done]. split; [lia |].
        intros item n Hout. destruct (Hy item n Hout) as (? & ? & ? & ?).
        split_and!; [lia | done | done | lia].
    + intros H. apply IH in H as [Hlen Hy]; [| done]. split; [lia |].
      intros item n Hout. destruct (Hy item n Hout) as (? & ? & ? & ?).
      split_and!; [lia | done | done | lia].
Qed.

Lemma run_loop_yield c wd g item :
  run_loop E self confidence_threshold frame_skip c wd = (g, Yielded item) ->
  let n := VideoFrameDetection.frame_number (snd item) in
  gen_at g = GenSuspended n /\ c <= n /\ n mod (frame_skip + 1) = 0
  /\ (length (cam_reads (gen_world g)) < length (cam_reads wd))%nat.
Proof.
  unfold run_loop, after_loop.
  destruct (stream_loop _ _ _ _ _ _ _) as [[[it m |] | e] wd1] eqn:Hs;
    [| done | by destruct (stream_handlers e wd1)].
  intros [= <- <-]. apply stream_loop_yield in Hs as [_ Hy]; [| done].
  destruct (Hy it m eq_refl) as (? & ? & -> & ?). by simpl.
Qed.

(** A pull that yields suspends the generator at the number of the item,
    which is not below [next_number] and is a multiple of
    [frame_skip + 1]. *)
Lemma gen_next_yield g g' item :
  next g = (g', Yielded item) ->
  let n := VideoFrameDetection.frame_number (snd item) in
  gen_at g' = GenSuspended n /\ next_number g <= n
  /\ n mod (frame_skip + 1) = 0
  /\ (length (cam_reads (gen_world g')) < length (cam_reads (gen_world g)))%nat.
Proof.
  unfold gen_next, next_number. destruct (gen_at g) as [| c |]; [| | done].
  - unfold VideoCapture. destruct (cam_open (gen_world g) camera_id); simpl.
    + intros H. by apply run_loop_yield in H.
    + done.
    + done.
  - intros H. by apply run_loop_yield in H.
Qed.

Lemma run_loop_reads c wd :
  (length (cam_reads (gen_world (fst
     (run_loop E self confidence_threshold frame_skip c wd))))
   <= length (cam_reads wd))%nat.
Proof.
  unfold run_loop, after_loop.
  destruct (stream_loop _ _ _ _ _ _ _) as [[[it m |] | e] wd1] eqn:Hs;
    apply stream_loop_yield in Hs as [Hlen _]; try done.
  pose proof (stream_handlers_same e wd1) as (_ & Hr & _ & _).
  destruct (stream_handlers e wd1) as [e' wd2]. simpl in *. by rewrite Hr.
Qed.

Lemma gen_next_reads g :
  (length (cam_reads (gen_world (fst (next g))))
   <= length (cam_reads (gen_world g)))%nat.
Proof.
  unfold gen_next. destruct (gen_at g) as [| c |]; [| apply run_loop_reads | done].
  unfold VideoCapture. destruct (cam_open (gen_world g) camera_id); simpl.
  - apply (run_loop_reads 0 (log_world _ (mkWorld _ _ _ _ _))).
  - done.
  - done.
Qed.

Lemma pull_numbers n g :
  Forall (fun i => next_number g <= i /\ i mod (frame_skip + 1) = 0)
    (frame_numbers (pulled n g).1.1)
  /\ StronglySorted Z.lt (frame_numbers (pulled n g).1.1)
  /\ (length (pulled n g).1.1 + length (cam_reads (gen_world (pulled n g).2))
      <= length (cam_reads (gen_world g)))%nat.
Proof.
  revert g. induction n as [| n IH]; intros g; simpl.
  - split_and!; [constructor | constructor | lia].
  - pose proof (gen_next_reads g) as Hlen.
    destruct (next g) as [g1 [item | | e]] eqn:Hn; simpl in *;
      try (split_and!; [constructor | constructor | lia]).
    apply gen_next_yield in Hn as (Hat & Hlow & Hmod & Hread).
    destruct (IH g1) as (Hall & Hsorted & Hcount).
    destruct (pulled n g1) as [[items fin] g2]. simpl in *.
    assert (Hnext : next_number g1
                    = VideoFrameDetection.frame_number (snd item) + 1)
      by (unfold next_number; by rewrite Hat).
    rewrite Hnext in Hall. split_and!.
    + constructor; [done |].
      eapply Forall_impl; [exact Hall |]. simpl. intros i [? ?]. split; [lia | done].
    + constructor; [done |].
      eapply Forall_impl; [exact Hall |]. simpl. intros i [? ?]. lia.
    + lia.
Qed.

End StreamOrder.

(** Whatever the camera does and whichever frames fail, the items a
    consumer receives from a fresh generator carry strictly increasing
    frame numbers, each of them a non-negative multiple of
    [frame_skip + 1]: a number is never repeated. *)
Theorem stream_frame_numbers_strictly_increase
    (E : External) (self : DetectionService) (camera_id : Z)
    (confidence_threshold : option Q) (frame_skip : Z) (wd : World) (n : nat) :
  let items :=
    (pull E self camera_id confidence_threshold frame_skip n
       (generate_video_stream wd)).1.1 in
  StronglySorted Z.lt (frame_numbers items)
  /\ Forall (fun i => 0 <= i /\ i mod (frame_skip + 1) = 0)
       (frame_numbers items).
Proof.
  destruct (pull_numbers E self camera_id confidence_threshold frame_skip n
              (generate_video_stream wd)) as (Hall & Hsorted & _).
  split; [exact Hsorted | exact Hall].
Qed.

(** Every item costs at least one read: the items received and the reads
    still in the script never exceed the reads the device had to give. *)
Theorem stream_items_bounded_by_reads
    (E : External) (self : DetectionService) (camera_id : Z)
    (confidence_threshold : option Q) (frame_skip : Z) (wd : World) (n : nat) :
  let run :=
    pull E self camera_id confidence_threshold frame_skip n
      (generate_video_stream wd) in
  (length run.1.1 + length (cam_reads (gen_world run.2))
   <= length (cam_reads wd))%nat.
Proof.
  destruct (pull_numbers E self camera_id confidence_threshold frame_skip n
              (generate_video_stream wd)) as (_ & _ & Hcount).
  exact Hcount.
Qed.

(** What a pull can raise: [VideoStreamException], or
    [CameraNotFoundException] at the first pull on a camera that does not
    open; either way the generator is closed. *)
Theorem stream_error_taxonomy
    (E : External) (self : DetectionService) (camera_id : Z)
    (confidence_threshold : option Q) (frame_skip : Z)
    (g g' : Generator) (e : exn) :
  gen_next E self camera_id confidence_threshold frame_skip g = (g', Raised e) ->
  gen_at g' = GenClosed
  /\ (e = App VideoStreamException
      \/ (e = App CameraNotFoundException
          /\ gen_at g = GenCreated
          /\ cam_open (gen_world g) camera_id = NotOpened)).
Proof.
  assert (Hloop : forall c wd,
            run_loop E self confidence_threshold frame_skip c wd
              = (g', Raised e) ->
            gen_at g' = GenClosed /\ e = App VideoStreamException).
  { intros c wd. unfold run_loop, after_loop.
    destruct (stream_loop _ _ _ _ _ _ _) as [[[it m |] | e0] wd1] eqn:Hs;
      [done | done |].
    assert (He0 : e0 = ZeroDivisionError \/ exists msg, e0 = ForeignError msg).
    { clear -Hs. revert Hs. generalize (cam_reads wd). intros reads.
      revert c wd. induction reads as [| r rest IH]; intros c wd; simpl;
        [done |].
      destruct r as [frame | | msg]; [| done | intros [= <- _]; eauto].
      destruct (frame_skip + 1 =? 0); [intros [= <- _]; eauto |].
      destruct (negb _); [apply IH |].
      destruct (process_frame _ _ _ _ _ _) as [[item | e1] wd2]; [done |].
      apply IH. }
    destruct He0 as [-> | [msg ->]]; simpl; by intros [= <- <-]. }
  unfold gen_next. destruct (gen_at g) as [| c |] eqn:Hat; [| | done].
  - unfold VideoCapture.
    destruct (cam_open (gen_world g) camera_id) eqn:Hopen; simpl.
    + intros H. apply Hloop in H as [? ?]. auto.
    + intros [= <- <-]. auto.
    + intros [= <- <-]. auto.
  - intros H. apply Hloop in H as [? ?]. auto.
Qed.

Lemma stream_error_taxonomy_witness :
  gen_at (fst (gen_next Demo.env Demo.service 0 None 0
                 (generate_video_stream Demo.no_camera))) = GenClosed.
Proof.
  apply (proj1 (stream_error_taxonomy Demo.env Demo.service 0 None 0
                  (generate_video_stream Demo.no_camera) _
                  (App CameraNotFoundException) eq_refl)).
Defined.

(** [frame_skip = -1] is not refused when the generator is built: the
    camera is opened, one frame is taken, the division by zero is caught
    as [VideoStreamException], no item is emitted and the camera is
    released. *)
Theorem frame_skip_minus_one_raises_at_first_frame
    (E : External) (self : DetectionService) (camera_id : Z)
    (confidence_threshold : option Q) (wd : World)
    (frame : ndarray) (rest : list read_outcome) :
  cam_open wd camera_id = Opened ->
  cam_reads wd = ReadFrame frame :: rest ->
  exists g,
    gen_next E self camera_id confidence_threshold (-1)
      (generate_video_stream wd)
    = (g, Raised (App VideoStreamException))
    /\ gen_at g = GenClosed
    /\ cam_reads (gen_world g) = rest
    /\ cam_released (gen_world g) = S (cam_released wd).
Proof.
  intros Hopen Hreads.
  unfold gen_next, generate_video_stream, VideoCapture, run_loop. simpl.
  rewrite Hopen. simpl. rewrite Hreads. simpl. eauto.
Qed.

Lemma frame_skip_minus_one_raises_at_first_frame_witness :
  exists g,
    gen_next Demo.env Demo.service 0 None (-1)
      (generate_video_stream Demo.three_frames)
    = (g, Raised (App VideoStreamException))
    /\ gen_at g = GenClosed
    /\ cam_reads (gen_world g) = [ReadFrame (Demo.frame 2); ReadFrame (Demo.frame 3)]
    /\ cam_released (gen_world g) = 1%nat.
Proof.
  apply (frame_skip_minus_one_raises_at_first_frame Demo.env Demo.service 0
           None Demo.three_frames (Demo.frame 1)
           [ReadFrame (Demo.frame 2); ReadFrame (Demo.frame 3)]
           eq_refl eq_refl).
Defined.

(** ** A stream over a model that is not loaded *)

Lemma process_frame_not_loaded E self conf c frame wd :
  is_loaded (svc_model self) = false ->
  process_frame E self conf c frame wd
  = (Raise (App ModelLoadException), log_world CallPredict wd).
Proof.
  intros Hnot. unfold process_frame, detect_frame, bind, modify, lift. simpl.
  by rewrite predict_not_loaded.
Qed.

(** Frames none of which gets through processing, then a failed read: the
    loop takes them all at counter 0 and breaks. *)
Lemma stream_loop_all_fail E self conf frame_skip frames tail :
  frame_skip + 1 <> 0 -> stops tail ->
  (forall frame wd, frame ∈ frames ->
     is_ok (fst (process_frame E self conf 0 frame wd)) = false) ->
  forall wd,
    fst (stream_loop E self conf frame_skip (map ReadFrame frames ++ tail) 0 wd)
    = Ok LoopBreak.
Proof.
  intros Hk Htail. induction frames as [| frame rest IH]; intros Hfail wd.
  - by destruct Htail as [-> | [rest ->]].
  - simpl. destruct (Z.eqb_spec (frame_skip + 1) 0) as [| _]; [done |].
    try rewrite Z.mod_0_l by done. simpl.
    specialize (Hfail frame (set_reads (map ReadFrame rest ++ tail) wd)
                  ltac:(by left)) as Hthis.
    destruct (process_frame E self conf 0 frame _) as [[item | e] wd1];
      [done |].
    apply IH. intros frame' wd' Hin. apply Hfail. by right.
Qed.

(** With a wrapper that is not loaded, a camera that opens and delivers
    frames until a read fails gives the consumer no item and no error:
    every frame fails inside the loop, the failure is logged and skipped,
    and the iteration ends with [StopIteration], the camera released. *)
Theorem unloaded_model_stream_is_silently_empty
    (E : External) (self : DetectionService) (camera_id : Z)
    (confidence_threshold : option Q) (frame_skip : Z) (wd : World)
    (frames : list ndarray) (tail : list read_outcome) (n : nat) :
  is_loaded (svc_model self) = false ->
  frame_skip + 1 <> 0 ->
  cam_open wd camera_id = Opened ->
  cam_reads wd = map ReadFrame frames ++ tail ->
  stops tail ->
  exists g,
    pull E self camera_id confidence_threshold frame_skip (S n)
      (generate_video_stream wd)
    = ([], Some StopIteration, g)
    /\ gen_at g = GenClosed
    /\ cam_released (gen_world g) = S (cam_released wd).
Proof.
  intros Hnot Hk Hopen Hreads Htail.
  simpl. unfold gen_next, generate_video_stream, VideoCapture. simpl.
  rewrite Hopen. unfold run_loop. simpl. rewrite Hreads.
  pose proof (stream_loop_all_fail E self
                (threshold self confidence_threshold) frame_skip frames tail
                Hk Htail) as Hloop.
  match goal with
  | |- context [stream_loop ?a ?b ?c ?d ?e ?f ?w] =>
      specialize (Hloop ltac:(intros frame wd0 _;
                              by rewrite process_frame_not_loaded) w);
      pose proof (stream_loop_spec a b confidence_threshold d e f w) as Hspec;
      destruct (stream_loop a b c d e f w) as [out wd1]
  end.
  simpl in Hloop. subst out.
  destruct (Hspec _ _ eq_refl) as (_ & Hrel & _). simpl in *.
  eexists. split; [reflexivity |]. split; [done |]. simpl. by rewrite Hrel.
Qed.

Lemma unloaded_model_stream_is_silently_empty_witness :
  exists g,
    pull Demo.env DemoMore.unloaded_service 0 None 0 1
      (generate_video_stream Demo.three_frames)
    = ([], Some StopIteration, g)
    /\ gen_at g = GenClosed
    /\ cam_released (gen_world g) = 1%nat.
Proof.
  apply (unloaded_model_stream_is_silently_empty Demo.env
           DemoMore.unloaded_service 0 None 0 Demo.three_frames
           [Demo.frame 1; Demo.frame 2; Demo.frame 3] [] 0).
  - reflexivity.
  - lia.
  - reflexivity.
  - reflexivity.
  - by left.
Defined.

(** ** The streaming route *)

(** The streaming route cannot answer 404 for a missing camera: it returns
    its response before any line of the generator runs, and the failure
    comes out of the first pull of the body, as
    [CameraNotFoundException], after the capture object was released. *)
Theorem missing_camera_surfaces_in_stream_body
    (P : RoutePlatform) (E : External) (self : DetectionService)
    (camera_id : Z) (confidence_threshold : option Q) (frame_skip : Z)
    (wd : World) :
  cam_open wd camera_id = NotOpened ->
  exists resp g,
    detect_video_stream wd = Returned resp
    /\ frame_generator_next P E self camera_id confidence_threshold frame_skip
         (body resp)
       = (g, BodyError (App CameraNotFoundException))
    /\ gen_at g = GenClosed
    /\ cam_captures (gen_world g) = S (cam_captures wd)
    /\ cam_released (gen_world g) = S (cam_released wd).
Proof.
  intros Hopen. eexists _, _. split; [reflexivity |].
  unfold frame_generator_next, gen_next, generate_video_stream, VideoCapture.
  simpl. rewrite Hopen. simpl. by split_and!.
Qed.

Lemma missing_camera_surfaces_in_stream_body_witness :
  exists resp g,
    detect_video_stream Demo.no_camera = Returned resp
    /\ frame_generator_next DemoRoutes.platform Demo.env Demo.service 0 None 0
         (body resp)
       = (g, BodyError (App CameraNotFoundException))
    /\ gen_at g = GenClosed
    /\ cam_captures (gen_world g) = 1%nat
    /\ cam_released (gen_world g) = 1%nat.
Proof.
  apply (missing_camera_surfaces_in_stream_body DemoRoutes.platform Demo.env
           Demo.service 0 None 0 Demo.no_camera eq_refl).
Defined.

(** ** The image routes *)


(** What the first statements of the image routes raise: the
    application's [InvalidImageException] for a rejected extension, or
    whatever the standard library raised; the log is not written. *)
Lemma read_upload_spec P allowed file tr r tr' :
  read_upload P allowed file tr = (r, tr') ->
  tr' = tr
  /\ match suffix_lower P (filename file) with
     | inl msg => r = Raise (ForeignError msg)
     | inr file_ext =>
         if bool_decide (file_ext ∈ allowed) then r = lift_ext (file_read file)
         else r = Raise (App InvalidImageException)
     end.
Proof.
  unfold read_upload, validate_image_format, bind, lift, ret, raise.
  destruct (suffix_lower P (filename file)) as [msg | file_ext]; simpl.
  - by intros [= <- <-].
  - destruct (bool_decide (file_ext ∈ allowed)); simpl.
    + destruct (lift_ext (file_read file)); by intros [= <- <-].
    + by intros [= <- <-].
Qed.

(** An upload whose extension is not in the allowed list is answered 400
    by both image routes, and nothing was decoded: the only event added to
    the trace is the error line. *)
Theorem unsupported_extension_is_400_before_decode
    (P : RoutePlatform) (E : External) (allowed : list string)
    (self : DetectionService) (file : UploadFile)
    (confidence_threshold : option Q) (save_result : bool)
    (tr : list event) (file_ext : string) :
  suffix_lower P (filename file) = inr file_ext ->
  file_ext ∉ allowed ->
  detect_image P E allowed self file confidence_threshold save_result tr
    = (HTTPException 400, tr ++ [LogError "Detection error"])
  /\ detect_image_annotated P E allowed self file confidence_threshold tr
     = (HTTPException 400, tr ++ [LogError "Detection error"]).
Proof.
  intros Hext Hnot.
  assert (Hread : read_upload P allowed file tr
                  = (Raise (App InvalidImageException), tr)).
  { destruct (read_upload P allowed file tr) as [r tr1] eqn:Hr.
    apply read_upload_spec in Hr as [-> Hr]. rewrite Hext in Hr.
    rewrite bool_decide_eq_false_2 in Hr by done. by rewrite Hr. }
  unfold detect_image, detect_image_annotated, http_handlers, bind.
  by rewrite Hread.
Qed.

Lemma unsupported_extension_is_400_before_decode_witness :
  detect_image DemoRoutes.platform Demo.env DemoRoutes.allowed Demo.service
    (DemoRoutes.upload "notes.txt" [Byte.x01]) None false []
    = (HTTPException 400, [LogError "Detection error"])
  /\ detect_image_annotated DemoRoutes.platform Demo.env DemoRoutes.allowed
       Demo.service (DemoRoutes.upload "notes.txt" [Byte.x01]) None []
     = (HTTPException 400, [LogError "Detection error"]).
Proof.
  apply (unsupported_extension_is_400_before_decode DemoRoutes.platform
           Demo.env DemoRoutes.allowed Demo.service
           (DemoRoutes.upload "notes.txt" [Byte.x01]) None false [] ".txt").
  - reflexivity.
  - unfold DemoRoutes.allowed. intros Hin.
    repeat (apply elem_of_cons in Hin as [Hin | Hin]; [discriminate |]).
    by apply elem_of_nil in Hin.
Defined.



(** The headers of the annotated route: [X-Weapon-Count] repeats
    [X-Detection-Count], which is the number of detections the service
    found, and [X-Has-Weapons] is [true] exactly when that number is
    positive. *)
Theorem annotated_route_headers_agree
    (P : RoutePlatform) (E : External) (allowed : list string)
    (self : DetectionService) (file : UploadFile)
    (confidence_threshold : option Q) (tr tr' : list event) (resp : Response) :
  detect_image_annotated P E allowed self file confidence_threshold tr
    = (Returned resp, tr') ->
  media_type resp = "image/jpeg"
  /\ exists count : Z,
       0 <= count
       /\ headers resp !! "X-Detection-Count" = Some (pretty count)
       /\ headers resp !! "X-Weapon-Count" = Some (pretty count)
       /\ headers resp !! "X-Has-Weapons"
          = Some (if 0 <? count then "true" else "false").
Proof.
  unfold detect_image_annotated, http_handlers, bind.
  destruct (read_upload P allowed file tr) as [[image_data | e] tr1];
    [| by destruct e].
  destruct (detect_and_annotate_image E self image_data confidence_threshold tr1)
    as [[[bytes result] | e] tr2] eqn:Hrun; [| by destruct e].
  unfold log_event, modify, ret. simpl. intros [= <- _].
  split; [reflexivity |].
  apply detect_and_annotate_image_ok in Hrun
    as (detections & time & size & ->).
  exists (len detections). simpl. split; [unfold len; lia |].
  unfold annotated_headers. simpl. split_and!; by simplify_map_eq.
Qed.

Lemma annotated_route_headers_agree_witness :
  media_type DemoMore.route_response = "image/jpeg"
  /\ exists count : Z,
       0 <= count
       /\ headers DemoMore.route_response !! "X-Detection-Count"
          = Some (pretty count)
       /\ headers DemoMore.route_response !! "X-Weapon-Count"
          = Some (pretty count)
       /\ headers DemoMore.route_response !! "X-Has-Weapons"
          = Some (if 0 <? count then "true" else "false").
Proof.
  apply (annotated_route_headers_agree DemoRoutes.platform Demo.env
           DemoRoutes.allowed Demo.service
           (DemoRoutes.upload "photo.JPG" [Byte.x01]) None []
           DemoMore.route_trace DemoMore.route_response).
  vm_compute. reflexivity.
Defined.

(** ** Intersection over union *)






